(** * openapi-router: route patterns to OpenAPI paths

    A shallow embedding of [src/openapi-router.ts] and of the type-level
    helpers at the end of [src/types.ts], with the properties of the
    path-syntax converter and of [createSpec].

    Strings are sequences of code units below 256 ([string], one [ascii] per
    code unit); every character the code tests for lies in the ASCII range. *)

From Stdlib Require Import Ascii String Bool Arith ZArith Lia.
From Equations Require Import Equations.
From stdpp Require Import base option list strings gmap pretty.

Local Open Scope string_scope.

(* Let [simpl] compute [+:+] on strings that start with known characters. *)
#[local] Arguments String.append !_ _ / : simpl nomatch.

(** ** Character classes *)

Definition in_range (lo hi c : ascii) : bool :=
  Nat.leb (nat_of_ascii lo) (nat_of_ascii c) && Nat.leb (nat_of_ascii c) (nat_of_ascii hi).

(** The class [[A-Za-z0-9_]] of the regular expression in [toOpenApiPath]. *)
Definition is_word (c : ascii) : bool :=
  in_range "A" "Z" c || in_range "a" "z" c || in_range "0" "9" c || Ascii.eqb c "_".

(** ** Runtime library primitives used by the source *)

(** [s.split(sep)] for a one-character separator: the pieces between the
    occurrences of [sep], in order. *)
Fixpoint split (sep : ascii) (s : string) : list string :=
  match s with
  | EmptyString => [EmptyString]
  | String c rest =>
      if Ascii.eqb c sep then EmptyString :: split sep rest
      else match split sep rest with
           | piece :: pieces => String c piece :: pieces
           | [] => []
           end
  end.

(** The greedy [[A-Za-z0-9_]*]: the longest prefix of word characters, and
    what follows it. *)
Fixpoint word_run (s : string) : string * string :=
  match s with
  | EmptyString => (EmptyString, EmptyString)
  | String c rest =>
      if is_word c
      then let '(run, tl) := word_run rest in (String c run, tl)
      else (EmptyString, s)
  end.

(** One attempt of [/:([A-Za-z0-9_]+)/] at the start of [s]: capture group 1
    and the text after the match. *)
Definition match_param (s : string) : option (string * string) :=
  match s with
  | String c rest =>
      if Ascii.eqb c ":" then
        match word_run rest with
        | (EmptyString, _) => None
        | (name, tl) => Some (name, tl)
        end
      else None
  | EmptyString => None
  end.

(** The replacement template ["{$1}"]. *)
Definition braces (name : string) : string := "{" +:+ name +:+ "}".

Lemma word_run_length (s : string) :
  String.length (fst (word_run s)) + String.length (snd (word_run s)) = String.length s.
Proof.
  induction s as [|c rest IH]; simpl; [reflexivity|].
  destruct (is_word c); [|reflexivity].
  destruct (word_run rest) as [run tl]; simpl in *; lia.
Qed.

Lemma match_param_shorter (s name tl : string) :
  match_param s = Some (name, tl) -> String.length tl < String.length s.
Proof.
  destruct s as [|c rest]; simpl; [discriminate|].
  destruct (Ascii.eqb c ":"); [|discriminate].
  pose proof (word_run_length rest) as Hlen.
  destruct (word_run rest) as [run tl']; simpl in Hlen.
  destruct run; [discriminate|].
  intros [= <- <-]. lia.
Qed.

(** Remember the equation when matching on a computed value. *)
Definition inspect {A : Type} (a : A) : {b : A | a = b} := exist _ a eq_refl.

(** [s.replace(/:([A-Za-z0-9_]+)/g, "{$1}")]: scan left to right; where the
    expression matches, emit the template and resume after the match;
    elsewhere copy one character. *)
Equations? replace_params (s : string) : string by wf (String.length s) lt :=
  replace_params s with inspect (match_param s) := {
    | exist _ (Some (name, tl)) Hm => braces name +:+ replace_params tl
    | exist _ None Hm with s := {
        | EmptyString => EmptyString
        | String c rest => String c (replace_params rest) } }.
Proof.
  - eapply match_param_shorter; eassumption.
  - simpl; lia.
Qed.

(** ** [toOpenApiPath] (openapi-router.ts, lines 23-28)

    [None] stands for the [TypeError] that [undefined.replace] would raise if
    the array returned by [split] had no first element. *)
Definition toOpenApiPath (pattern : string) : option string :=
  pathWithoutQuery ← split "?" pattern !! 0%nat;
  Some (replace_params pathWithoutQuery).

Example toOpenApiPath_users_id : toOpenApiPath "/users/:id" = Some "/users/{id}".
Proof. reflexivity. Qed.

(** ** [toOpenApiMethod] (openapi-router.ts, lines 29-32) *)

(** [toLowerCase] on one code unit below 256: the letters [A]-[Z] and the
    Latin-1 capitals (192-222 except the multiplication sign 215) move up
    by 32. *)
Definition lower_char (c : ascii) : ascii :=
  let n := nat_of_ascii c in
  if in_range "A" "Z" c
     || (Nat.leb 192 n && Nat.leb n 222 && negb (Nat.eqb n 215))
  then ascii_of_nat (n + 32)
  else c.

Fixpoint toLowerCase (s : string) : string :=
  match s with
  | EmptyString => EmptyString
  | String c rest => String (lower_char c) (toLowerCase rest)
  end.

Definition toOpenApiMethod (method : string) : string :=
  let openApi := if String.eqb method "ANY" then "GET" else method in
  toLowerCase openApi.

(** ** The type-level converter (types.ts, lines 502-520;
       openapi-router.ts, lines 16-21)

    A string-literal type is modelled by the string it denotes, a conditional
    type by the function it computes on literals. *)

(** [type ParamDelimiter = "/" | "." | "-" | ")" | "(" | "?" | "&" | ":" | ""] *)
Definition ParamDelimiter : list string :=
  ["/"; "."; "-"; ")"; "("; "?"; "&"; ":"; ""].

(** [C extends ParamDelimiter] *)
Definition extends_ParamDelimiter (C : string) : bool :=
  existsb (String.eqb C) ParamDelimiter.

(** [S extends `${infer C}${infer Rest}`] is the match on [String C Rest];
    [C] is the one-character literal [String C ""]. *)
Fixpoint ExtractParamName (S Acc : string) : string :=
  match S with
  | String C Rest =>
      if extends_ParamDelimiter (String C "") then Acc
      else ExtractParamName Rest (Acc +:+ String C "")
  | EmptyString => Acc
  end.

Fixpoint SkipParamName (S : string) : string :=
  match S with
  | String C Rest =>
      if extends_ParamDelimiter (String C "") then String C Rest
      else SkipParamName Rest
  | EmptyString => ""
  end.

(** [P extends `${infer A}<sep>${infer B}`]: [A] is the text before the first
    [sep], [B] the text after it; no match when [sep] does not occur. *)
Fixpoint infer_around (sep : ascii) (P : string) : option (string * string) :=
  match P with
  | EmptyString => None
  | String c rest =>
      if Ascii.eqb c sep then Some (EmptyString, rest)
      else match infer_around sep rest with
           | Some (A, B) => Some (String c A, B)
           | None => None
           end
  end.

Lemma SkipParamName_length (S : string) :
  String.length (SkipParamName S) <= String.length S.
Proof.
  induction S as [|C Rest IH]; simpl; [lia|].
  destruct (extends_ParamDelimiter (String C "")); simpl; lia.
Qed.

Lemma infer_around_length (sep : ascii) (P A B : string) :
  infer_around sep P = Some (A, B) ->
  String.length P = String.length A + 1 + String.length B.
Proof.
  revert A B. induction P as [|c rest IH]; simpl; intros A B; [discriminate|].
  destruct (Ascii.eqb c sep); [intros [= <- <-]; simpl; lia|].
  destruct (infer_around sep rest) as [[A' B']|]; [|discriminate].
  intros [= <- <-]. simpl. rewrite (IH A' B' eq_refl). lia.
Qed.

Equations? ToOpenApiPath (Pattern : string) : string
  by wf (String.length Pattern) lt :=
  ToOpenApiPath Pattern with inspect (infer_around ":" Pattern) := {
    | exist _ (Some (Head, AfterColon)) Hc =>
        Head +:+ "{" +:+ ExtractParamName AfterColon "" +:+ "}"
             +:+ ToOpenApiPath (SkipParamName AfterColon)
    | exist _ None Hc with infer_around "?" Pattern := {
        | Some (Path, _Query) => Path
        | None => Pattern } }.
Proof.
  apply infer_around_length in Hc.
  pose proof (SkipParamName_length AfterColon). lia.
Qed.

(** ** [createSpec] (openapi-router.ts, lines 34-69) *)

(** Runtime values: primitives, functions (opaque) and objects as finite maps
    from property names to values. *)
#[local] Set Warnings "-register-all".
Inductive value : Type :=
  | VUndefined
  | VNull
  | VBool (b : bool)
  | VNumber (n : Z)
  | VString (s : string)
  | VFunction (id : nat)
  | VObject (props : gmap string value).

(** The condition of [v ? a : b]. *)
Definition truthy (v : value) : bool :=
  match v with
  | VUndefined | VNull => false
  | VBool b => b
  | VNumber n => negb (Z.eqb n 0)
  | VString s => match s with EmptyString => false | String _ _ => true end
  | VFunction _ | VObject _ => true
  end.

(** [o.key] on an object: the property, or [undefined] when there is none. *)
Definition prop (o : gmap string value) (key : string) : value :=
  default VUndefined (o !! key).

(** [v.key] where [v] is neither [undefined] nor [null]: only an object
    carries the property that [createSpec] reads ([searchParams]). *)
Definition get (v : value) (key : string) : value :=
  match v with
  | VObject o => prop o key
  | _ => VUndefined
  end.

Fixpoint string_chars (i : nat) (s : string) : list (string * value) :=
  match s with
  | EmptyString => []
  | String c rest => (pretty i, VString (String c "")) :: string_chars (S i) rest
  end.

(** The own enumerable properties copied by [{...v}]: those of an object,
    the indexed characters of a string, none for the other values. *)
Definition spread (v : value) : gmap string value :=
  match v with
  | VObject o => o
  | VString s => list_to_map (string_chars 0 s)
  | _ => ∅
  end.

(** The route object of the routing library, as far as [createSpec] reads
    it: [route.method] and [route.pattern.source]. *)
Record Route : Type := {
  method : string;
  pattern_source : string;
}.

(** The object bound to [transformedConfig]. *)
Definition transformedConfig (config : gmap string value) : gmap string value :=
  <["request" :=
      if truthy (prop config "request")
      then VObject (<["query" := get (prop config "request") "searchParams"]>
                      (spread (prop config "request")))
      else VUndefined]> config.

(** The object literal [{ method: ..., path: ..., ...transformedConfig }]
    handed to [createRoute]: the spread comes last, so its properties win. *)
Definition createRoute_argument (route : Route) (config : gmap string value)
  : option (gmap string value) :=
  path ← toOpenApiPath (pattern_source route);
  Some (transformedConfig config
          ∪ <["method" := VString (toOpenApiMethod (method route))]>
              {["path" := VString path]}).

Section CreateSpec.

(** [createRoute] belongs to the schema-validation library. *)
Context {Spec : Type} (createRoute : gmap string value → Spec).

Definition createSpec (route : Route) (config : gmap string value) : option Spec :=
  createRoute <$> createRoute_argument route config.

End CreateSpec.

(** ** Vocabulary of the specification *)

(** [occurs c s]: the character [c] appears in [s]. *)
Fixpoint occurs (c : ascii) (s : string) : bool :=
  match s with
  | EmptyString => false
  | String d rest => Ascii.eqb d c || occurs c rest
  end.

(** The prefix of [s] strictly before the first occurrence of [sep] (all of
    [s] when [sep] does not occur). *)
Fixpoint prefix_before (sep : ascii) (s : string) : string :=
  match s with
  | EmptyString => EmptyString
  | String c rest => if Ascii.eqb c sep then EmptyString else String c (prefix_before sep rest)
  end.

(** [all_word s]: every character of [s] is in [[A-Za-z0-9_]]. *)
Fixpoint all_word (s : string) : bool :=
  match s with
  | EmptyString => true
  | String c rest => is_word c && all_word rest
  end.

(** [starts_word s]: [s] is not empty and its first character is in
    [[A-Za-z0-9_]]. *)
Definition starts_word (s : string) : bool :=
  match s with
  | EmptyString => false
  | String c _ => is_word c
  end.

Definition nonempty (s : string) : bool :=
  match s with
  | EmptyString => false
  | String _ _ => true
  end.

(** A pattern cut into pieces: a parameter token [:name], or one character
    that belongs to no token. *)
Inductive segment : Type :=
  | Lit (c : ascii)
  | Param (name : string).

Definition segment_source (g : segment) : string :=
  match g with
  | Lit c => String c ""
  | Param name => ":" +:+ name
  end.

Definition segment_target (g : segment) : string :=
  match g with
  | Lit c => String c ""
  | Param name => "{" +:+ name +:+ "}"
  end.

Fixpoint source_of (segs : list segment) : string :=
  match segs with
  | [] => ""
  | g :: rest => segment_source g +:+ source_of rest
  end.

Fixpoint target_of (segs : list segment) : string :=
  match segs with
  | [] => ""
  | g :: rest => segment_target g +:+ target_of rest
  end.

Definition next_is_word (segs : list segment) : bool :=
  match segs with
  | Lit c :: _ => is_word c
  | _ => false
  end.

(** [maximal_tokens segs]: the [Param] pieces are exactly the maximal
    substrings "colon, then one or more word characters": a name is not
    empty, holds word characters only and is not followed by one more word
    character, and no colon left as a literal is followed by a word
    character. *)
Fixpoint maximal_tokens (segs : list segment) : bool :=
  match segs with
  | [] => true
  | Lit c :: rest =>
      negb (Ascii.eqb c ":" && next_is_word rest) && maximal_tokens rest
  | Param name :: rest =>
      nonempty name && all_word name && negb (next_is_word rest) && maximal_tokens rest
  end.

(** [colon_kept pre post]: the conversion of [pre ++ ":" ++ post] is the
    conversion of [pre], then that colon, then text that starts with the
    character which followed the colon (none when the colon came last). *)
Definition colon_kept (pre post : string) : Prop :=
  exists out_pre out_post : string,
    toOpenApiPath pre = Some out_pre
    /\ toOpenApiPath (pre +:+ String ":" post) = Some (out_pre +:+ String ":" out_post)
    /\ match post with
       | EmptyString => out_post = ""
       | String c _ => exists r, out_post = String c r
       end.

(** [method_forwarded_lowercased route config]: the object handed to
    [createRoute] has the lowercased [route.method] as its [method]. *)
Definition method_forwarded_lowercased (route : Route) (config : gmap string value) : Prop :=
  exists arg : gmap string value,
    (forall (Spec : Type) (createRoute : gmap string value → Spec),
        createSpec createRoute route config = Some (createRoute arg))
    /\ arg !! "method" = Some (VString (toLowerCase (method route))).

(** The text of [s] from the first [sep] on (nothing when [sep] does not
    occur). *)
Fixpoint suffix_from (sep : ascii) (s : string) : string :=
  match s with
  | EmptyString => EmptyString
  | String c rest => if Ascii.eqb c sep then s else suffix_from sep rest
  end.

(** [c] is one of the characters of [ParamDelimiter]. *)
Definition is_delimiter (c : ascii) : bool := extends_ParamDelimiter (String c "").

(** [stops_name s]: a parameter name that runs up to [s] ends there. *)
Definition stops_name (s : string) : bool :=
  match s with
  | EmptyString => true
  | String c _ => is_delimiter c
  end.

(** [delimited_tokens segs]: every colon starts a parameter, and every
    parameter name ends at a character of [ParamDelimiter] or at the end. *)
Fixpoint delimited_tokens (segs : list segment) : bool :=
  match segs with
  | [] => true
  | Lit c :: rest => negb (Ascii.eqb c ":") && delimited_tokens rest
  | Param _ :: rest =>
      match rest with
      | Lit c :: _ => is_delimiter c
      | _ => true
      end && delimited_tokens rest
  end.

(** ** [ConvertPathType] (types.ts, lines 240-243)

    The type-level way back, from the OpenAPI path to the router's syntax. *)

(** [s] without its prefix [t], when it starts with [t]. *)
Fixpoint strip_prefix (t s : string) : option string :=
  match t with
  | EmptyString => Some s
  | String a t' =>
      match s with
      | EmptyString => None
      | String b s' => if Ascii.eqb a b then strip_prefix t' s' else None
      end
  end.

(** [P extends `${infer A}<delim>${infer B}`] for a literal text [delim]:
    [A] ends at the first occurrence of [delim]. *)
Fixpoint infer_around_text (delim P : string) : option (string * string) :=
  match strip_prefix delim P with
  | Some B => Some (EmptyString, B)
  | None =>
      match P with
      | EmptyString => None
      | String c rest =>
          match infer_around_text delim rest with
          | Some (A, B) => Some (String c A, B)
          | None => None
          end
      end
  end.

(** [T extends `${infer Start}/{${infer Param}}${infer Rest}`]: the first
    ["/{"], then the first ["}"] after it. *)
Definition infer_path_param (T : string) : option (string * string * string) :=
  match infer_around_text "/{" T with
  | Some (Start, After) =>
      match infer_around "}" After with
      | Some (Param', Rest) => Some (Start, Param', Rest)
      | None => None
      end
  | None => None
  end.

Lemma strip_prefix_length (t s B : string) :
  strip_prefix t s = Some B -> String.length s = String.length t + String.length B.
Proof.
  revert s. induction t as [|a t IH]; simpl; intros s.
  - now intros [= ->].
  - destruct s as [|b s]; [discriminate|].
    destruct (Ascii.eqb a b); [|discriminate].
    intros H. simpl. now rewrite (IH _ H).
Qed.

Lemma infer_around_text_length (delim P A B : string) :
  infer_around_text delim P = Some (A, B) ->
  String.length P = String.length A + String.length delim + String.length B.
Proof.
  revert A B. induction P as [|c rest IH]; intros A B; simpl.
  - destruct (strip_prefix delim "") as [B'|] eqn:Hp; [|discriminate].
    intros [= <- <-]. apply strip_prefix_length in Hp. simpl in *. lia.
  - destruct (strip_prefix delim (String c rest)) as [B'|] eqn:Hp.
    + intros [= <- <-]. apply strip_prefix_length in Hp. simpl in *. lia.
    + destruct (infer_around_text delim rest) as [[A' B']|]; [|discriminate].
      intros [= <- <-]. simpl. rewrite (IH A' B' eq_refl). lia.
Qed.

Lemma infer_path_param_shorter (T Start Param' Rest : string) :
  infer_path_param T = Some (Start, Param', Rest) ->
  String.length Rest < String.length T.
Proof.
  unfold infer_path_param.
  destruct (infer_around_text "/{" T) as [[Start' After]|] eqn:H1; [|discriminate].
  destruct (infer_around "}" After) as [[Param'' Rest']|] eqn:H2; [|discriminate].
  intros [= <- <- <-].
  apply infer_around_text_length in H1. apply infer_around_length in H2.
  simpl in H1. lia.
Qed.

Equations? ConvertPathType (T : string) : string by wf (String.length T) lt :=
  ConvertPathType T with inspect (infer_path_param T) := {
    | exist _ (Some (Start, Param', Rest)) Hm =>
        Start +:+ "/:" +:+ Param' +:+ ConvertPathType Rest
    | exist _ None Hm => T }.
Proof. eapply infer_path_param_shorter; eassumption. Qed.

(** ** [IsJson] (types.ts, lines 49-55) *)

(** [S extends `${string}<c>`]: [S] ends with the character [c]. *)
Fixpoint ends_with (c : ascii) (S : string) : bool :=
  match S with
  | EmptyString => false
  | String d EmptyString => Ascii.eqb d c
  | String _ rest => ends_with c rest
  end.

(** [Start extends "" | `${string}+` | `vnd.${string}+`] *)
Definition json_subtype_prefix (Start : string) : bool :=
  String.eqb Start ""
  || ends_with "+" Start
  || match strip_prefix "vnd." Start with
     | Some middle => ends_with "+" middle
     | None => false
     end.

(** [IsJson<T>] on a string literal: [Some "json"], or [None] for [never]. *)
Definition IsJson (T : string) : option string :=
  match strip_prefix "application/" T with
  | Some subtype =>
      match infer_around_text "json" subtype with
      | Some (Start, _End) => if json_subtype_prefix Start then Some "json" else None
      | None => None
      end
  | None => None
  end.

(** ** More vocabulary *)

(** The number of colons of [s] that are followed by a word character. *)
Fixpoint param_count (s : string) : nat :=
  match s with
  | EmptyString => 0
  | String c rest =>
      (if Ascii.eqb c ":" && starts_word rest then 1 else 0) + param_count rest
  end.

(** [has_upper s]: some character of [s] is a letter from [A] to [Z]. *)
Fixpoint has_upper (s : string) : bool :=
  match s with
  | EmptyString => false
  | String c rest => in_range "A" "Z" c || has_upper rest
  end.

(** [occurs_text t s]: the text [t] appears somewhere in [s]. *)
Fixpoint occurs_text (t s : string) : bool :=
  match strip_prefix t s with
  | Some _ => true
  | None =>
      match s with
      | EmptyString => false
      | String _ rest => occurs_text t rest
      end
  end.

(** Every [{] turned into a colon and every [}] removed. *)
Fixpoint unbrace (s : string) : string :=
  match s with
  | EmptyString => EmptyString
  | String c rest =>
      if Ascii.eqb c "{" then String ":" (unbrace rest)
      else if Ascii.eqb c "}" then unbrace rest
      else String c (unbrace rest)
  end.

(** [slash_params after_slash segs]: no piece is a literal [{], and every
    parameter comes right after a literal [/] ([after_slash] tells whether
    the text before [segs] ended with one). *)
Fixpoint slash_params (after_slash : bool) (segs : list segment) : bool :=
  match segs with
  | [] => true
  | Lit c :: rest => negb (Ascii.eqb c "{") && slash_params (Ascii.eqb c "/") rest
  | Param _ :: rest => after_slash && slash_params false rest
  end.

(** The pieces put back in the router's syntax as far as a [/] allows: a
    parameter right after a literal [/] is written [:name], any other one
    stays [{name}]. *)
Fixpoint back_of (after_slash : bool) (segs : list segment) : string :=
  match segs with
  | [] => ""
  | Lit c :: rest => String c (back_of (Ascii.eqb c "/") rest)
  | Param name :: rest =>
      (if after_slash then ":" +:+ name else "{" +:+ name +:+ "}")
        +:+ back_of false rest
  end.

(** No piece is a literal [{]. *)
Fixpoint no_open_lit (segs : list segment) : bool :=
  match segs with
  | [] => true
  | Lit c :: rest => negb (Ascii.eqb c "{") && no_open_lit rest
  | Param _ :: rest => no_open_lit rest
  end.

(** * Properties *)

(** ** Strings *)

Lemma append_nil_r (s : string) : s +:+ "" = s.
Proof. induction s as [|c s IH]; simpl; [reflexivity | now rewrite IH]. Qed.

Lemma append_assoc (s1 s2 s3 : string) : (s1 +:+ s2) +:+ s3 = s1 +:+ s2 +:+ s3.
Proof. induction s1 as [|c s1 IH]; simpl; [reflexivity | now rewrite IH]. Qed.

Lemma occurs_append (c : ascii) (s1 s2 : string) :
  occurs c (s1 +:+ s2) = occurs c s1 || occurs c s2.
Proof.
  induction s1 as [|d s1 IH]; simpl; [reflexivity|].
  rewrite IH. now rewrite orb_assoc.
Qed.

(** ** Query stripping *)

Lemma split_head (sep : ascii) (s : string) :
  split sep s !! 0%nat = Some (prefix_before sep s).
Proof.
  induction s as [|c rest IH]; simpl; [reflexivity|].
  destruct (Ascii.eqb c sep); [reflexivity|].
  destruct (split sep rest) as [|piece pieces]; [discriminate|].
  simpl in *. congruence.
Qed.

Lemma prefix_before_absent (sep : ascii) (s : string) :
  occurs sep s = false -> prefix_before sep s = s.
Proof.
  induction s as [|c rest IH]; simpl; [reflexivity|].
  destruct (Ascii.eqb c sep); simpl; [discriminate|].
  intros H. now rewrite IH.
Qed.

Lemma occurs_prefix_before (sep : ascii) (s : string) :
  occurs sep (prefix_before sep s) = false.
Proof.
  induction s as [|c rest IH]; simpl; [reflexivity|].
  destruct (Ascii.eqb c sep) eqn:E; simpl; [reflexivity|].
  now rewrite E.
Qed.

Lemma prefix_before_append (sep : ascii) (s1 s2 : string) :
  occurs sep s1 = false ->
  prefix_before sep (s1 +:+ s2) = s1 +:+ prefix_before sep s2.
Proof.
  induction s1 as [|c s1 IH]; simpl; [reflexivity|].
  destruct (Ascii.eqb c sep); simpl; [discriminate|].
  intros H. now rewrite IH.
Qed.

(** ** The replacement scan *)

Lemma replace_params_nil : replace_params "" = "".
Proof. reflexivity. Qed.

Lemma replace_params_match (s name tl : string) :
  match_param s = Some (name, tl) ->
  replace_params s = braces name +:+ replace_params tl.
Proof.
  intros H. rewrite replace_params_equation_1.
  destruct (inspect (match_param s)) as [[[name' tl']|] Hm];
    pose proof (eq_trans (eq_sym Hm) H) as E; [|discriminate E].
  injection E as -> ->. now simp replace_params.
Qed.

Lemma replace_params_copy (c : ascii) (rest : string) :
  match_param (String c rest) = None ->
  replace_params (String c rest) = String c (replace_params rest).
Proof.
  intros H. rewrite replace_params_equation_1.
  destruct (inspect (match_param (String c rest))) as [[[name' tl']|] Hm];
    pose proof (eq_trans (eq_sym Hm) H) as E; [discriminate E|].
  now simp replace_params.
Qed.

Lemma toOpenApiPath_unfold (pattern : string) :
  toOpenApiPath pattern = Some (replace_params (prefix_before "?" pattern)).
Proof. unfold toOpenApiPath. now rewrite split_head. Qed.

Lemma replace_params_no_colon (s : string) :
  occurs ":" s = false -> replace_params s = s.
Proof.
  induction s as [|c rest IH]; [reflexivity|].
  simpl. intros [Hc Hrest]%orb_false_elim.
  rewrite replace_params_copy; [now rewrite IH|].
  simpl. now rewrite Hc.
Qed.

(** ** Matching one parameter *)

Lemma word_run_inv (s run tl : string) :
  word_run s = (run, tl) ->
  s = run +:+ tl /\ all_word run = true /\ starts_word tl = false.
Proof.
  revert run tl. induction s as [|c rest IH]; simpl; intros run tl.
  - intros [= <- <-]. auto.
  - destruct (is_word c) eqn:Hc.
    + destruct (word_run rest) as [r t]. intros [= <- <-].
      destruct (IH r t eq_refl) as (-> & Hr & Ht).
      simpl. rewrite Hc. auto.
    + intros [= <- <-]. simpl. auto.
Qed.

Lemma word_run_stop (tl : string) :
  starts_word tl = false -> word_run tl = ("", tl).
Proof. destruct tl as [|c rest]; simpl; [reflexivity|]. now intros ->. Qed.

Lemma word_run_append (run tl : string) :
  all_word run = true -> starts_word tl = false ->
  word_run (run +:+ tl) = (run, tl).
Proof.
  intros Hrun Htl. induction run as [|c run IH]; simpl in *.
  - now apply word_run_stop.
  - apply andb_prop in Hrun as [Hc Hrun]. rewrite Hc, IH; auto.
Qed.

Lemma match_param_inv (s name tl : string) :
  match_param s = Some (name, tl) ->
  s = String ":" (name +:+ tl) /\ nonempty name = true /\
  all_word name = true /\ starts_word tl = false.
Proof.
  destruct s as [|c rest]; simpl; [discriminate|].
  destruct (Ascii.eqb_spec c ":") as [->|Hc]; [|discriminate].
  destruct (word_run rest) as [run t] eqn:Hrun.
  apply word_run_inv in Hrun as (-> & Hall & Hstop).
  destruct run as [|d run]; [discriminate|].
  intros [= <- <-]. auto.
Qed.

Lemma match_param_param (name tl : string) :
  nonempty name = true -> all_word name = true -> starts_word tl = false ->
  match_param (String ":" (name +:+ tl)) = Some (name, tl).
Proof.
  intros Hne Hall Hstop. simpl. rewrite word_run_append by assumption.
  destruct name; [discriminate | reflexivity].
Qed.

Lemma match_param_lit (c : ascii) (rest : string) :
  Ascii.eqb c ":" && starts_word rest = false ->
  match_param (String c rest) = None.
Proof.
  simpl. destruct (Ascii.eqb c ":"); simpl; [|reflexivity].
  intros H. now rewrite word_run_stop.
Qed.

Lemma match_param_none_inv (c : ascii) (rest : string) :
  match_param (String c rest) = None ->
  Ascii.eqb c ":" && starts_word rest = false.
Proof.
  simpl. destruct (Ascii.eqb c ":"); simpl; [|reflexivity].
  destruct rest as [|d rest]; simpl; [reflexivity|].
  destruct (is_word d); [|reflexivity].
  now destruct (word_run rest).
Qed.

Lemma replace_params_param (name tl : string) :
  nonempty name = true -> all_word name = true -> starts_word tl = false ->
  replace_params (String ":" (name +:+ tl)) = braces name +:+ replace_params tl.
Proof. intros. apply replace_params_match. now apply match_param_param. Qed.

Lemma replace_params_lit (c : ascii) (rest : string) :
  Ascii.eqb c ":" && starts_word rest = false ->
  replace_params (String c rest) = String c (replace_params rest).
Proof. intros. apply replace_params_copy. now apply match_param_lit. Qed.

(** ** Token segmentations *)

Lemma starts_word_source_of (segs : list segment) :
  starts_word (source_of segs) = next_is_word segs.
Proof. destruct segs as [|[c|name] rest]; reflexivity. Qed.

Lemma replace_params_source_of (segs : list segment) :
  maximal_tokens segs = true ->
  replace_params (source_of segs) = target_of segs.
Proof.
  induction segs as [|[c|name] rest IH]; simpl; [reflexivity| |].
  - intros [Hc Hrest]%andb_prop. apply negb_true_iff in Hc.
    rewrite replace_params_lit by now rewrite starts_word_source_of.
    now rewrite IH.
  - intros [[[Hne Hall]%andb_prop Hstop]%andb_prop Hrest]%andb_prop.
    apply negb_true_iff in Hstop.
    rewrite replace_params_param by (try rewrite starts_word_source_of; assumption).
    rewrite IH by assumption. unfold braces. simpl. now rewrite append_assoc.
Qed.

Lemma segmentation_exists (s : string) :
  exists segs, maximal_tokens segs = true /\ source_of segs = s.
Proof.
  remember (String.length s) as n eqn:Hn. revert s Hn.
  induction n as [n IH] using lt_wf_ind. intros s ->.
  destruct (match_param s) as [[name tl]|] eqn:Hm.
  - pose proof (match_param_shorter _ _ _ Hm) as Hlt.
    apply match_param_inv in Hm as (-> & Hne & Hall & Hstop).
    destruct (IH _ Hlt tl eq_refl) as (segs & Hsegs & <-).
    exists (Param name :: segs). simpl.
    rewrite Hne, Hall, Hsegs, <- starts_word_source_of, Hstop. auto.
  - destruct s as [|c rest]; [now exists []|].
    apply match_param_none_inv in Hm.
    destruct (IH (String.length rest) (Nat.lt_succ_diag_r _) rest eq_refl)
      as (segs & Hsegs & <-).
    exists (Lit c :: segs). simpl.
    rewrite <- starts_word_source_of, Hm, Hsegs. auto.
Qed.

Lemma source_of_app (segs1 segs2 : list segment) :
  source_of (segs1 ++ segs2)%list = source_of segs1 +:+ source_of segs2.
Proof.
  induction segs1 as [|g rest IH]; simpl; [reflexivity|].
  now rewrite IH, append_assoc.
Qed.

Lemma target_of_app (segs1 segs2 : list segment) :
  target_of (segs1 ++ segs2)%list = target_of segs1 +:+ target_of segs2.
Proof.
  induction segs1 as [|g rest IH]; simpl; [reflexivity|].
  now rewrite IH, append_assoc.
Qed.

Lemma maximal_tokens_app (segs1 segs2 : list segment) :
  maximal_tokens segs1 = true -> maximal_tokens segs2 = true ->
  next_is_word segs2 = false ->
  maximal_tokens (segs1 ++ segs2)%list = true.
Proof.
  intros H1 H2 Hnext.
  assert (Hstep : forall rest, next_is_word rest = false ->
                               next_is_word (rest ++ segs2)%list = false).
  { intros [|g rest]; simpl; [now rewrite Hnext | auto]. }
  induction segs1 as [|[c|name] rest IH]; simpl in *; [assumption| |].
  - apply andb_prop in H1 as [Hc Hrest]. rewrite IH by assumption.
    destruct (Ascii.eqb c ":"); simpl in *; [|reflexivity].
    apply negb_true_iff in Hc. now rewrite Hstep.
  - apply andb_prop in H1 as [[Hname Hstop]%andb_prop Hrest].
    apply negb_true_iff in Hstop.
    now rewrite Hname, IH, Hstep.
Qed.

(** The scan is compositional at every point where no name can continue. *)
Lemma replace_params_append (s1 s2 : string) :
  starts_word s2 = false ->
  replace_params (s1 +:+ s2) = replace_params s1 +:+ replace_params s2.
Proof.
  intros Hstop.
  destruct (segmentation_exists s1) as (segs1 & H1 & <-).
  destruct (segmentation_exists s2) as (segs2 & H2 & <-).
  rewrite starts_word_source_of in Hstop.
  rewrite <- source_of_app, !replace_params_source_of, target_of_app;
    auto using maximal_tokens_app.
Qed.

Lemma is_word_not_colon (c : ascii) : is_word c = true -> Ascii.eqb c ":" = false.
Proof. destruct (Ascii.eqb_spec c ":") as [->|]; [discriminate | reflexivity]. Qed.

Lemma all_word_no_colon (name : string) :
  all_word name = true -> occurs ":" name = false.
Proof.
  induction name as [|c rest IH]; simpl; [reflexivity|].
  intros [Hc Hrest]%andb_prop. now rewrite is_word_not_colon, IH.
Qed.

Lemma replace_params_app_no_colon (s1 s2 : string) :
  occurs ":" s1 = false ->
  replace_params (s1 +:+ s2) = s1 +:+ replace_params s2.
Proof.
  induction s1 as [|c rest IH]; simpl; [reflexivity|].
  intros [Hc Hrest]%orb_false_elim.
  rewrite replace_params_lit by now rewrite Hc.
  now rewrite IH.
Qed.

Lemma starts_word_target_of (segs : list segment) :
  starts_word (target_of segs) = next_is_word segs.
Proof. destruct segs as [|[c|name] rest]; reflexivity. Qed.

(** The output of the scan holds no further match. *)
Lemma replace_params_target_of (segs : list segment) :
  maximal_tokens segs = true ->
  replace_params (target_of segs) = target_of segs.
Proof.
  induction segs as [|[c|name] rest IH]; simpl; [reflexivity| |].
  - intros [Hc Hrest]%andb_prop. apply negb_true_iff in Hc.
    rewrite replace_params_lit by now rewrite starts_word_target_of.
    now rewrite IH.
  - intros [[[Hne Hall]%andb_prop Hstop]%andb_prop Hrest]%andb_prop.
    rewrite replace_params_lit by reflexivity.
    rewrite append_assoc.
    rewrite replace_params_app_no_colon by now apply all_word_no_colon.
    simpl. rewrite replace_params_lit by reflexivity.
    now rewrite IH.
Qed.

Lemma replace_params_idempotent (s : string) :
  replace_params (replace_params s) = replace_params s.
Proof.
  destruct (segmentation_exists s) as (segs & Hsegs & <-).
  rewrite replace_params_source_of by assumption.
  now apply replace_params_target_of.
Qed.

Lemma occurs_query_target_of (segs : list segment) :
  occurs "?" (target_of segs) = occurs "?" (source_of segs).
Proof.
  induction segs as [|[c|name] rest IH]; simpl; [reflexivity| |].
  - now rewrite IH.
  - rewrite !occurs_append, IH. simpl. now rewrite orb_false_r.
Qed.

Lemma occurs_query_replace_params (s : string) :
  occurs "?" (replace_params s) = occurs "?" s.
Proof.
  destruct (segmentation_exists s) as (segs & Hsegs & <-).
  rewrite replace_params_source_of by assumption.
  apply occurs_query_target_of.
Qed.

Lemma toOpenApiPath_idempotent (p : string) :
  toOpenApiPath p ≫= toOpenApiPath = toOpenApiPath p.
Proof.
  rewrite toOpenApiPath_unfold. simpl. rewrite toOpenApiPath_unfold.
  rewrite prefix_before_absent.
  - now rewrite replace_params_idempotent.
  - rewrite occurs_query_replace_params. apply occurs_prefix_before.
Qed.

(** * The path-syntax converter *)

(** C6: [toOpenApiPath] is total: on every input string it returns a string
    and never raises, the empty string, a pattern without parameters and a
    pattern whose last token runs to the end of the string included. *)
Theorem toOpenApiPath_total :
  (forall pattern : string, exists path : string, toOpenApiPath pattern = Some path)
  /\ toOpenApiPath "" = Some ""
  /\ toOpenApiPath "/users" = Some "/users"
  /\ toOpenApiPath "/users/:id" = Some "/users/{id}".
Proof.
  split; [|repeat split; reflexivity].
  intros pattern. rewrite toOpenApiPath_unfold. eauto.
Qed.

(** C3: when the pattern contains [?], converting it is converting its prefix
    before the first [?]: the [?] and what follows are dropped before any
    parameter is replaced. *)
Theorem toOpenApiPath_query_prefix (p : string) :
  occurs "?" p = true ->
  toOpenApiPath p = toOpenApiPath (prefix_before "?" p)
  /\ toOpenApiPath p = Some (replace_params (prefix_before "?" p)).
Proof.
  intros _. rewrite !toOpenApiPath_unfold. split; [|reflexivity].
  now rewrite (prefix_before_absent _ _ (occurs_prefix_before "?" p)).
Qed.

Lemma toOpenApiPath_query_prefix_witness :
  occurs "?" "/users/:id?includeDeleted" = true
  /\ toOpenApiPath "/users/:id?includeDeleted"
     = toOpenApiPath (prefix_before "?" "/users/:id?includeDeleted").
Proof.
  split; [reflexivity|].
  apply (toOpenApiPath_query_prefix "/users/:id?includeDeleted"). reflexivity.
Defined.

(** C8: a pattern with no [:] and no [?] is returned as it is. *)
Theorem toOpenApiPath_identity (p : string) :
  occurs ":" p = false -> occurs "?" p = false -> toOpenApiPath p = Some p.
Proof.
  intros Hcolon Hquery. rewrite toOpenApiPath_unfold.
  rewrite prefix_before_absent by assumption.
  now rewrite replace_params_no_colon.
Qed.

Lemma toOpenApiPath_identity_witness :
  toOpenApiPath "/users/{id}/" = Some "/users/{id}/".
Proof. apply (toOpenApiPath_identity "/users/{id}/"); reflexivity. Defined.

(** C2: after the query is stripped, the maximal substrings "colon, then one
    or more characters of [[A-Za-z0-9_]]" are each replaced by the same name
    in braces, and every other character is kept, in order: the stripped
    pattern has a cut into such tokens and single characters, and whatever
    such cut is taken, the result is its pieces with [:name] turned into
    [{name}]. *)
Theorem toOpenApiPath_replaces_tokens (pattern : string) :
  (exists segs : list segment,
      maximal_tokens segs = true /\ source_of segs = prefix_before "?" pattern)
  /\ (forall segs : list segment,
        maximal_tokens segs = true ->
        source_of segs = prefix_before "?" pattern ->
        toOpenApiPath pattern = Some (target_of segs)).
Proof.
  split; [apply segmentation_exists|].
  intros segs Hsegs Hsrc. rewrite toOpenApiPath_unfold, <- Hsrc.
  now rewrite replace_params_source_of.
Qed.

Lemma toOpenApiPath_replaces_tokens_witness :
  toOpenApiPath "/u/:id/p/:n_1?x"
  = Some (target_of [Lit "/"; Lit "u"; Lit "/"; Param "id"; Lit "/"; Lit "p";
                     Lit "/"; Param "n_1"]).
Proof.
  apply (proj2 (toOpenApiPath_replaces_tokens "/u/:id/p/:n_1?x")); reflexivity.
Defined.

(** C4: on a pattern without [{] and [}], converting twice is converting
    once. *)
Theorem toOpenApiPath_idempotent_no_braces (p : string) :
  occurs "{" p = false -> occurs "}" p = false ->
  toOpenApiPath p ≫= toOpenApiPath = toOpenApiPath p.
Proof. intros _ _. apply toOpenApiPath_idempotent. Qed.

Lemma toOpenApiPath_idempotent_no_braces_witness :
  toOpenApiPath "/users/:id/posts/:postId?draft" ≫= toOpenApiPath
  = toOpenApiPath "/users/:id/posts/:postId?draft".
Proof.
  apply (toOpenApiPath_idempotent_no_braces "/users/:id/posts/:postId?draft");
    reflexivity.
Defined.

(** ** A colon that starts no parameter *)

Lemma starts_word_prefix_before (sep : ascii) (s : string) :
  starts_word s = false -> starts_word (prefix_before sep s) = false.
Proof.
  destruct s as [|c rest]; simpl; [reflexivity|].
  now destruct (Ascii.eqb c sep).
Qed.

(** C9, as stated, fails where the query stripping or a following parameter
    interferes: a colon after the first [?] is dropped with the query; a [?]
    right after the colon is dropped; a second colon right after it may
    itself start a parameter and become a brace. *)
Lemma colon_kept_counterexample :
  (starts_word "/c" = false /\ ~ colon_kept "/a?b" "/c")
  /\ (starts_word "?x" = false /\ ~ colon_kept "/a/" "?x")
  /\ (starts_word ":b" = false /\ ~ colon_kept "/a/" ":b").
Proof.
  repeat split; intros (out_pre & out_post & Hpre & Hall & Hnext);
    vm_compute in Hpre, Hall; injection Hpre as <-; injection Hall as Hall;
    try discriminate Hall.
  - destruct Hnext as [r ->]. discriminate Hall.
  - destruct Hnext as [r ->]. discriminate Hall.
Qed.

(** C9 (amended): a colon before the first [?] that is followed by a
    character outside [[A-Za-z0-9_]], or by nothing, is left as it is, with
    no braces emitted: the result is the conversion of what precedes it, the
    colon, and the conversion of what follows it.  The character after the
    colon is kept too unless it is [?] or another colon. *)
Theorem toOpenApiPath_lone_colon :
  (forall pre post : string,
      occurs "?" pre = false -> starts_word post = false ->
      exists out_pre out_post : string,
        toOpenApiPath pre = Some out_pre
        /\ toOpenApiPath post = Some out_post
        /\ toOpenApiPath (pre +:+ String ":" post)
           = Some (out_pre +:+ String ":" out_post)
        /\ (forall (c : ascii) (r : string),
               post = String c r -> c <> "?"%char -> c <> ":"%char ->
               exists r', out_post = String c r'))
  /\ toOpenApiPath "/a/:/b" = Some "/a/:/b"
  /\ toOpenApiPath "/a/:" = Some "/a/:".
Proof.
  split; [|split; reflexivity].
  intros pre post Hpre Hpost.
  exists (replace_params pre), (replace_params (prefix_before "?" post)).
  rewrite !toOpenApiPath_unfold.
  rewrite (prefix_before_absent _ pre Hpre).
  rewrite (prefix_before_append _ pre _ Hpre). simpl.
  repeat split.
  - rewrite replace_params_append by reflexivity.
    rewrite replace_params_lit; [reflexivity|].
    simpl. now apply starts_word_prefix_before.
  - intros c r -> Hq Hc. simpl.
    apply Ascii.eqb_neq in Hq, Hc. rewrite Hq.
    rewrite replace_params_lit by now rewrite Hc.
    eauto.
Qed.

Lemma toOpenApiPath_lone_colon_witness :
  occurs "?" "/a/" = false /\ starts_word "/b?q" = false
  /\ exists out_pre out_post : string,
       toOpenApiPath "/a/" = Some out_pre
       /\ toOpenApiPath "/b?q" = Some out_post
       /\ toOpenApiPath "/a/:/b?q" = Some (out_pre +:+ String ":" out_post).
Proof.
  split; [reflexivity|]. split; [reflexivity|].
  destruct (proj1 toOpenApiPath_lone_colon "/a/" "/b?q" eq_refl eq_refl)
    as (out_pre & out_post & H1 & H2 & H3 & _).
  exists out_pre, out_post. auto.
Defined.

(** * The method converter *)

Lemma toOpenApiMethod_unfold (method : string) :
  toOpenApiMethod method
  = if String.eqb method "ANY" then "get" else toLowerCase method.
Proof. unfold toOpenApiMethod. now destruct (String.eqb method "ANY"). Qed.

(** C7: the verb is lowercased, the wildcard ["ANY"] alone being first
    replaced by ["GET"]; nothing else is normalized. *)
Theorem toOpenApiMethod_lowercase :
  (forall method : string,
      toOpenApiMethod method
      = if String.eqb method "ANY" then "get" else toLowerCase method)
  /\ toOpenApiMethod "GET" = "get"
  /\ toOpenApiMethod "ANY" = "get"
  /\ toOpenApiMethod "PATCH" = "patch".
Proof.
  split; [apply toOpenApiMethod_unfold | repeat split; reflexivity].
Qed.

Example toOpenApiMethod_verbs :
  map toOpenApiMethod ["GET"; "HEAD"; "POST"; "PUT"; "PATCH"; "DELETE"; "OPTIONS"; "ANY"]
  = ["get"; "head"; "post"; "put"; "patch"; "delete"; "options"; "get"].
Proof. reflexivity. Qed.

(** Only the exact string ["ANY"] is the wildcard, and nothing is trimmed. *)
Example toOpenApiMethod_no_other_normalization :
  toOpenApiMethod "any" = "any" /\ toOpenApiMethod " GET " = " get ".
Proof. split; reflexivity. Qed.

(** * [createSpec] *)

Lemma createSpec_unfold {Spec : Type} (createRoute : gmap string value → Spec)
    (route : Route) (config : gmap string value) :
  createSpec createRoute route config
  = Some (createRoute
            (transformedConfig config
               ∪ <["method" := VString (toOpenApiMethod (method route))]>
                   {["path" := VString (replace_params
                                          (prefix_before "?" (pattern_source route)))]})).
Proof.
  unfold createSpec, createRoute_argument.
  now rewrite toOpenApiPath_unfold.
Qed.

Lemma transformedConfig_request (config : gmap string value) (req : gmap string value) :
  config !! "request" = Some (VObject req) ->
  transformedConfig config !! "request"
  = Some (VObject (<["query" := prop req "searchParams"]> req)).
Proof.
  intros Hreq. unfold transformedConfig, prop. rewrite Hreq. simpl.
  now rewrite lookup_insert_eq.
Qed.


Lemma transformedConfig_other (config : gmap string value) (key : string) :
  key ≠ "request" -> transformedConfig config !! key = config !! key.
Proof. intros Hkey. unfold transformedConfig. now rewrite lookup_insert_ne. Qed.

(** C5, as stated, fails for a route that accepts any method: its verb is
    ["ANY"], and the method forwarded is ["get"], not ["any"]. *)
Lemma createSpec_any_counterexample :
  ~ method_forwarded_lowercased
      {| method := "ANY"; pattern_source := "/users/:id" |}
      {["responses" := VObject ∅]}.
Proof.
  intros (arg & Harg & Hmethod).
  specialize (Harg (gmap string value) (fun forwarded => forwarded)).
  rewrite createSpec_unfold in Harg. injection Harg as <-.
  rewrite lookup_union_r in Hmethod by now rewrite transformedConfig_other.
  rewrite lookup_insert_eq in Hmethod. discriminate Hmethod.
Qed.

(** The spread of the config comes after [method] and [path] in the object
    literal: a config that carries one of these keys overrides the computed
    value. *)
Example createSpec_config_path_wins :
  createRoute_argument
    {| method := "GET"; pattern_source := "/users/:id" |}
    {["path" := VString "/elsewhere"]}
  ≫= (.!! "path")
  = Some (VString "/elsewhere").
Proof. vm_compute. reflexivity. Qed.

(** C5 (amended): for every route and every config that has no [method] and
    no [path] property of its own, [createSpec] hands to [createRoute] an
    object whose [method] is the lowercased verb of the route (["get"] for
    the wildcard ["ANY"]), whose [path] is [toOpenApiPath] of the route's
    pattern, whose [request], when the config has a request object, is that
    request shape with the value of its search-parameters field under
    [query] and every other field as the config gives it, and whose other
    properties are those of the config. *)
Theorem createSpec_forwards (route : Route) (config : gmap string value) :
  config !! "method" = None -> config !! "path" = None ->
  exists (path : string) (arg : gmap string value),
    toOpenApiPath (pattern_source route) = Some path
    /\ (forall (Spec : Type) (createRoute : gmap string value → Spec),
           createSpec createRoute route config = Some (createRoute arg))
    /\ arg !! "method"
       = Some (VString (if String.eqb (method route) "ANY" then "get"
                        else toLowerCase (method route)))
    /\ arg !! "path" = Some (VString path)
    /\ (forall req : gmap string value,
           config !! "request" = Some (VObject req) ->
           exists req' : gmap string value,
             arg !! "request" = Some (VObject req')
             /\ req' !! "query" = Some (prop req "searchParams")
             /\ (forall field : string,
                    field ≠ "query" -> req' !! field = req !! field))
    /\ (forall key : string,
           key ≠ "method" -> key ≠ "path" -> key ≠ "request" ->
           arg !! key = config !! key).
Proof.
  intros Hmethod Hpath.
  eexists. eexists. split; [apply toOpenApiPath_unfold|].
  split; [intros; apply createSpec_unfold|].
  repeat split.
  - rewrite lookup_union_r by now rewrite transformedConfig_other.
    rewrite lookup_insert_eq.
    now rewrite toOpenApiMethod_unfold.
  - rewrite lookup_union_r by now rewrite transformedConfig_other.
    rewrite lookup_insert_ne by discriminate. now rewrite lookup_singleton_eq.
  - intros req Hreq. eexists. split; [|split].
    + apply lookup_union_Some_l. exact (transformedConfig_request _ _ Hreq).
    + apply lookup_insert_eq.
    + intros field Hfield. now rewrite lookup_insert_ne.
  - intros key Hm Hp Hr.
    destruct (config !! key) as [v|] eqn:Hkey.
    + apply lookup_union_Some_l. now rewrite transformedConfig_other.
    + rewrite lookup_union_r by now rewrite transformedConfig_other.
      rewrite lookup_insert_ne by congruence. now rewrite lookup_singleton_ne.
Qed.

Lemma createSpec_forwards_witness :
  exists (path : string) (arg req' : gmap string value),
    toOpenApiPath "/users/:id" = Some path
    /\ createSpec (fun forwarded => forwarded)
         {| method := "POST"; pattern_source := "/users/:id" |}
         {["request" := VObject {["searchParams" := VString "PageQuery";
                                  "params" := VString "IdParams"]}]}
       = Some arg
    /\ arg !! "method" = Some (VString "post")
    /\ arg !! "path" = Some (VString path)
    /\ arg !! "request" = Some (VObject req')
    /\ req' !! "query" = Some (VString "PageQuery")
    /\ req' !! "params" = Some (VString "IdParams").
Proof.
  destruct (createSpec_forwards
              {| method := "POST"; pattern_source := "/users/:id" |}
              {["request" := VObject {["searchParams" := VString "PageQuery";
                                       "params" := VString "IdParams"]}]})
    as (path & arg & Hpath & Hlink & Hm & Hp & Hreq & _);
    [vm_compute; reflexivity | vm_compute; reflexivity |].
  destruct (Hreq {["searchParams" := VString "PageQuery";
                   "params" := VString "IdParams"]})
    as (req' & Hr & Hq & Hfields); [vm_compute; reflexivity|].
  exists path, arg, req'. rewrite Hq, (Hfields "params") by discriminate.
  repeat split; try assumption; try apply Hlink; vm_compute; reflexivity.
Defined.



(** * The type-level converter against the runtime function *)

(** C1 does not hold of the code: the type computed by [ToOpenApiPath] and the
    value returned by [toOpenApiPath] differ where a colon is followed by a
    delimiter or by nothing, where a name holds a character that is neither a
    word character nor a delimiter, and where a colon comes after the [?]. *)
Theorem ToOpenApiPath_diverges :
  (toOpenApiPath "/a/:/b" = Some "/a/:/b" /\ ToOpenApiPath "/a/:/b" = "/a/{}/b")
  /\ (toOpenApiPath "/a/:" = Some "/a/:" /\ ToOpenApiPath "/a/:" = "/a/{}")
  /\ (toOpenApiPath "/users/:user$id" = Some "/users/{user}$id"
      /\ ToOpenApiPath "/users/:user$id" = "/users/{user$id}")
  /\ (toOpenApiPath "/users?at=12:30" = Some "/users"
      /\ ToOpenApiPath "/users?at=12:30" = "/users?at=12{30}")
  /\ (toOpenApiPath "https://example.com/users/:id"
      = Some "https://example.com/users/{id}"
      /\ ToOpenApiPath "https://example.com/users/:id"
         = "https{}//example.com/users/{id}").
Proof. repeat split; reflexivity. Qed.

(** ** Where the two converters agree *)

Lemma ToOpenApiPath_colon (P Head AfterColon : string) :
  infer_around ":" P = Some (Head, AfterColon) ->
  ToOpenApiPath P
  = Head +:+ "{" +:+ ExtractParamName AfterColon "" +:+ "}"
         +:+ ToOpenApiPath (SkipParamName AfterColon).
Proof.
  intros H. rewrite ToOpenApiPath_equation_1.
  destruct (inspect (infer_around ":" P)) as [[[Head' After']|] Hc];
    pose proof (eq_trans (eq_sym Hc) H) as E; [|discriminate E].
  injection E as -> ->. now simp ToOpenApiPath.
Qed.

Lemma ToOpenApiPath_no_colon (P : string) :
  infer_around ":" P = None ->
  ToOpenApiPath P
  = match infer_around "?" P with
    | Some (Path, _) => Path
    | None => P
    end.
Proof.
  intros H. rewrite ToOpenApiPath_equation_1.
  destruct (inspect (infer_around ":" P)) as [[[Head' After']|] Hc];
    pose proof (eq_trans (eq_sym Hc) H) as E; [discriminate E|].
  simp ToOpenApiPath.
  destruct (infer_around "?" P) as [[Path Query]|]; now simp ToOpenApiPath.
Qed.

Lemma infer_around_absent (sep : ascii) (P : string) :
  occurs sep P = false -> infer_around sep P = None.
Proof.
  induction P as [|c rest IH]; simpl; [reflexivity|].
  intros [Hc Hrest]%orb_false_elim. now rewrite Hc, IH.
Qed.

Lemma ToOpenApiPath_cons_lit (c : ascii) (P : string) :
  Ascii.eqb c ":" = false -> Ascii.eqb c "?" = false ->
  ToOpenApiPath (String c P) = String c (ToOpenApiPath P).
Proof.
  intros Hcolon Hquery.
  destruct (infer_around ":" P) as [[Head After]|] eqn:Hc.
  - rewrite (ToOpenApiPath_colon (String c P) (String c Head) After)
      by (simpl; now rewrite Hcolon, Hc).
    now rewrite (ToOpenApiPath_colon P Head After Hc).
  - rewrite (ToOpenApiPath_no_colon (String c P))
      by (simpl; now rewrite Hcolon, Hc).
    rewrite (ToOpenApiPath_no_colon P Hc). simpl. rewrite Hquery.
    now destruct (infer_around "?" P) as [[Path Query]|].
Qed.

Lemma is_word_not_delimiter (c : ascii) :
  is_word c = true -> is_delimiter c = false.
Proof.
  destruct c as [[] [] [] [] [] [] [] []]; vm_compute; congruence.
Qed.

Lemma ExtractParamName_name (name tl Acc : string) :
  all_word name = true -> stops_name tl = true ->
  ExtractParamName (name +:+ tl) Acc = Acc +:+ name.
Proof.
  intros Hall Hstop. revert Acc.
  induction name as [|c name IH]; simpl in *; intros Acc.
  - rewrite append_nil_r. destruct tl as [|d tl]; simpl in *; [reflexivity|].
    unfold is_delimiter in Hstop. now rewrite Hstop.
  - apply andb_prop in Hall as [Hc Hall].
    pose proof (is_word_not_delimiter c Hc) as Hd. unfold is_delimiter in Hd.
    rewrite Hd, IH by assumption. now rewrite append_assoc.
Qed.

Lemma SkipParamName_name (name tl : string) :
  all_word name = true -> stops_name tl = true ->
  SkipParamName (name +:+ tl) = tl.
Proof.
  intros Hall Hstop.
  induction name as [|c name IH]; simpl in *.
  - destruct tl as [|d tl]; simpl in *; [reflexivity|].
    unfold is_delimiter in Hstop. now rewrite Hstop.
  - apply andb_prop in Hall as [Hc Hall].
    pose proof (is_word_not_delimiter c Hc) as Hd. unfold is_delimiter in Hd.
    now rewrite Hd, IH.
Qed.

Lemma ToOpenApiPath_source_of (segs : list segment) (query : string) :
  maximal_tokens segs = true -> delimited_tokens segs = true ->
  occurs "?" (source_of segs) = false ->
  occurs ":" query = false ->
  (query = "" \/ exists r, query = String "?" r) ->
  ToOpenApiPath (source_of segs +:+ query) = target_of segs.
Proof.
  intros Hmax Hdel Hq Hcolon Hshape.
  induction segs as [|[c|name] rest IH]; simpl in *.
  - rewrite ToOpenApiPath_no_colon by now apply infer_around_absent.
    destruct Hshape as [->|[r ->]]; reflexivity.
  - apply andb_prop in Hmax as [_ Hmax]. apply andb_prop in Hdel as [Hc Hdel].
    apply orb_false_elim in Hq as [Hcq Hq]. apply negb_true_iff in Hc.
    rewrite ToOpenApiPath_cons_lit by assumption.
    now rewrite IH.
  - apply andb_prop in Hmax as [[[Hne Hall]%andb_prop _]%andb_prop Hmax].
    apply andb_prop in Hdel as [Hnext Hdel].
    rewrite occurs_append in Hq. apply orb_false_elim in Hq as [_ Hq].
    assert (Hstop : stops_name (source_of rest +:+ query) = true).
    { destruct rest as [|[d|name'] rest]; simpl in *; [|assumption|reflexivity].
      destruct Hshape as [->|[r ->]]; reflexivity. }
    rewrite (ToOpenApiPath_colon _ "" ((name +:+ source_of rest) +:+ query))
      by reflexivity.
    rewrite append_assoc, ExtractParamName_name, SkipParamName_name by assumption.
    rewrite IH by assumption. simpl. now rewrite append_assoc.
Qed.

Lemma prefix_suffix (sep : ascii) (s : string) :
  prefix_before sep s +:+ suffix_from sep s = s.
Proof.
  induction s as [|c rest IH]; simpl; [reflexivity|].
  destruct (Ascii.eqb c sep); simpl; [reflexivity | now rewrite IH].
Qed.

Lemma suffix_from_shape (sep : ascii) (s : string) :
  suffix_from sep s = "" \/ exists r, suffix_from sep s = String sep r.
Proof.
  induction s as [|c rest IH]; simpl; [now left|].
  destruct (Ascii.eqb_spec c sep) as [->|]; [right; eauto | assumption].
Qed.

(** X12: On a pattern whose colons all start a parameter that ends at a delimiter
    (or at the end), and that has no colon after the first [?], the type
    computed by [ToOpenApiPath] is the value returned by [toOpenApiPath]. *)
Theorem converters_agree_on_delimited (p : string) (segs : list segment) :
  maximal_tokens segs = true -> delimited_tokens segs = true ->
  source_of segs = prefix_before "?" p ->
  occurs ":" (suffix_from "?" p) = false ->
  toOpenApiPath p = Some (ToOpenApiPath p).
Proof.
  intros Hmax Hdel Hsrc Hcolon.
  rewrite toOpenApiPath_unfold, <- Hsrc, replace_params_source_of by assumption.
  rewrite <- (prefix_suffix "?" p) at 1. rewrite <- Hsrc.
  rewrite ToOpenApiPath_source_of; auto using suffix_from_shape.
  rewrite Hsrc. apply occurs_prefix_before.
Qed.

Lemma converters_agree_on_delimited_witness :
  toOpenApiPath "/users/:userId/posts/:postId?draft&page"
  = Some (ToOpenApiPath "/users/:userId/posts/:postId?draft&page").
Proof.
  apply (converters_agree_on_delimited _
           [Lit "/"; Lit "u"; Lit "s"; Lit "e"; Lit "r"; Lit "s"; Lit "/";
            Param "userId"; Lit "/"; Lit "p"; Lit "o"; Lit "s"; Lit "t";
            Lit "s"; Lit "/"; Param "postId"]); reflexivity.
Defined.

(** * Further properties of the runtime converter *)

Lemma length_append (s1 s2 : string) :
  String.length (s1 +:+ s2) = String.length s1 + String.length s2.
Proof. induction s1 as [|c s1 IH]; simpl; [reflexivity | now rewrite IH]. Qed.

Lemma toOpenApiPath_segments (p : string) :
  exists segs : list segment,
    maximal_tokens segs = true
    /\ source_of segs = prefix_before "?" p
    /\ toOpenApiPath p = Some (target_of segs).
Proof.
  destruct (segmentation_exists (prefix_before "?" p)) as (segs & Hmax & Hsrc).
  exists segs. repeat split; try assumption.
  now rewrite toOpenApiPath_unfold, <- Hsrc, replace_params_source_of.
Qed.

(** X1: The result never holds a [?]: whatever the query part contains, none of
    it reaches the OpenAPI path. *)
Theorem toOpenApiPath_no_query_left (p out : string) :
  toOpenApiPath p = Some out -> occurs "?" out = false.
Proof.
  rewrite toOpenApiPath_unfold. intros [= <-].
  rewrite occurs_query_replace_params. apply occurs_prefix_before.
Qed.

Lemma toOpenApiPath_no_query_left_witness :
  occurs "?" "/users/{id}" = false.
Proof.
  apply (toOpenApiPath_no_query_left "/users/:id?page&limit=:n" "/users/{id}").
  reflexivity.
Defined.

Lemma colon_split (s1 t pre post : string) :
  occurs ":" s1 = false ->
  s1 +:+ t = pre +:+ String ":" post ->
  exists pre', pre = s1 +:+ pre' /\ t = pre' +:+ String ":" post.
Proof.
  revert pre. induction s1 as [|c s1 IH]; simpl; intros pre Hc Heq.
  - exists pre. auto.
  - apply orb_false_elim in Hc as [Hc Hs1].
    destruct pre as [|d pre]; simpl in Heq.
    + injection Heq as -> _. discriminate Hc.
    + injection Heq as <- Heq.
      destruct (IH pre Hs1 Heq) as (pre' & -> & ->). now exists pre'.
Qed.

Lemma segment_target_param_no_colon (name : string) :
  all_word name = true -> occurs ":" (segment_target (Param name)) = false.
Proof.
  intros Hall. simpl. rewrite occurs_append.
  now rewrite (all_word_no_colon name Hall).
Qed.

Lemma target_of_colon_stops (segs : list segment) :
  maximal_tokens segs = true ->
  forall pre post : string,
    target_of segs = pre +:+ String ":" post -> starts_word post = false.
Proof.
  induction segs as [|[c|name] rest IH]; intros Hmax pre post Heq.
  - destruct pre; discriminate Heq.
  - simpl in Hmax. apply andb_prop in Hmax as [Hc Hrest].
    apply negb_true_iff in Hc.
    destruct pre as [|d pre]; simpl in Heq.
    + injection Heq as -> <-. simpl in Hc.
      now rewrite starts_word_target_of.
    + injection Heq as _ Heq. now apply (IH Hrest pre).
  - simpl in Hmax.
    apply andb_prop in Hmax as [[[Hne Hall]%andb_prop Hstop]%andb_prop Hrest].
    change (segment_target (Param name) +:+ target_of rest
            = pre +:+ String ":" post) in Heq.
    apply colon_split in Heq as (pre' & _ & Heq);
      [|now apply segment_target_param_no_colon].
    now apply (IH Hrest pre').
Qed.

(** X2: No parameter token is left in the result: every colon that remains is
    followed by a character outside [[A-Za-z0-9_]] or by nothing. *)
Theorem toOpenApiPath_no_token_left (p out pre post : string) :
  toOpenApiPath p = Some out ->
  out = pre +:+ String ":" post ->
  starts_word post = false.
Proof.
  destruct (toOpenApiPath_segments p) as (segs & Hmax & _ & ->).
  intros [= <-] Heq. now apply (target_of_colon_stops segs Hmax pre).
Qed.

Lemma toOpenApiPath_no_token_left_witness : starts_word "{b}-" = false.
Proof.
  apply (toOpenApiPath_no_token_left "/a/::b-?q" "/a/:{b}-" "/a/" "{b}-");
    reflexivity.
Defined.

Lemma param_count_app_no_colon (s1 s2 : string) :
  occurs ":" s1 = false -> param_count (s1 +:+ s2) = param_count s2.
Proof.
  induction s1 as [|c s1 IH]; simpl; [reflexivity|].
  intros [Hc Hs1]%orb_false_elim. now rewrite Hc, IH.
Qed.

Lemma starts_word_name (name tl : string) :
  nonempty name = true -> all_word name = true -> starts_word (name +:+ tl) = true.
Proof.
  destruct name as [|c name]; simpl; [discriminate|].
  now intros _ [Hc _]%andb_prop.
Qed.

Lemma length_target_of (segs : list segment) :
  maximal_tokens segs = true ->
  String.length (target_of segs)
  = String.length (source_of segs) + param_count (source_of segs).
Proof.
  induction segs as [|[c|name] rest IH]; simpl; [reflexivity| |].
  - intros [Hc Hrest]%andb_prop. apply negb_true_iff in Hc.
    rewrite starts_word_source_of, Hc, IH by assumption. simpl. lia.
  - intros [[[Hne Hall]%andb_prop Hstop]%andb_prop Hrest]%andb_prop.
    rewrite starts_word_name by assumption.
    rewrite param_count_app_no_colon by now apply all_word_no_colon.
    rewrite !length_append, IH by assumption. simpl. lia.
Qed.

(** X3: The result is the stripped pattern lengthened by one character for each
    parameter (each colon followed by a word character): nothing but the
    query is dropped. *)
Theorem toOpenApiPath_length (p out : string) :
  toOpenApiPath p = Some out ->
  String.length out
  = String.length (prefix_before "?" p) + param_count (prefix_before "?" p).
Proof.
  destruct (toOpenApiPath_segments p) as (segs & Hmax & <- & ->).
  intros [= <-]. now apply length_target_of.
Qed.

Lemma toOpenApiPath_length_witness :
  String.length "/users/{userId}/posts/{postId}"
  = String.length (prefix_before "?" "/users/:userId/posts/:postId?draft")
    + param_count (prefix_before "?" "/users/:userId/posts/:postId?draft").
Proof.
  apply (toOpenApiPath_length "/users/:userId/posts/:postId?draft"). reflexivity.
Defined.

(** X4: Conversion distributes over concatenation at any point where the text on
    the right does not start with a word character (for instance a mount
    prefix followed by a sub-path that starts with [/]), provided the text on
    the left holds no [?]. *)
Theorem toOpenApiPath_append (a b : string) :
  occurs "?" a = false -> starts_word b = false ->
  toOpenApiPath (a +:+ b)
  = (x ← toOpenApiPath a; y ← toOpenApiPath b; Some (x +:+ y)).
Proof.
  intros Ha Hb. rewrite !toOpenApiPath_unfold. simpl.
  rewrite (prefix_before_append _ a b Ha), (prefix_before_absent _ a Ha).
  now rewrite replace_params_append by now apply starts_word_prefix_before.
Qed.

Lemma toOpenApiPath_append_witness :
  toOpenApiPath ("/api/:version" +:+ "/users/:id?full")
  = (x ← toOpenApiPath "/api/:version";
     y ← toOpenApiPath "/users/:id?full"; Some (x +:+ y)).
Proof. apply (toOpenApiPath_append "/api/:version" "/users/:id?full"); reflexivity. Defined.

Lemma unbrace_append (s1 s2 : string) :
  unbrace (s1 +:+ s2) = unbrace s1 +:+ unbrace s2.
Proof.
  induction s1 as [|c s1 IH]; simpl; [reflexivity|].
  destruct (Ascii.eqb c "{"); [simpl; now rewrite IH|].
  destruct (Ascii.eqb c "}"); simpl; now rewrite IH.
Qed.

Lemma unbrace_no_braces (s : string) :
  occurs "{" s = false -> occurs "}" s = false -> unbrace s = s.
Proof.
  induction s as [|c s IH]; simpl; [reflexivity|].
  intros [Ho Hso]%orb_false_elim [Hc Hsc]%orb_false_elim.
  now rewrite Ho, Hc, IH.
Qed.

Lemma unbrace_target_of (segs : list segment) :
  occurs "{" (source_of segs) = false -> occurs "}" (source_of segs) = false ->
  unbrace (target_of segs) = source_of segs.
Proof.
  induction segs as [|[c|name] rest IH]; simpl; [reflexivity| |].
  - intros [Ho Hso]%orb_false_elim [Hc Hsc]%orb_false_elim.
    now rewrite Ho, Hc, IH.
  - rewrite !occurs_append.
    intros [Ho Hso]%orb_false_elim [Hc Hsc]%orb_false_elim.
    rewrite !unbrace_append, IH, unbrace_no_braces by assumption.
    simpl. now rewrite append_assoc.
Qed.

(** X5: On patterns without [{], [}] and [?] the conversion is injective: two
    different patterns never give the same OpenAPI path. *)
Theorem toOpenApiPath_injective (p1 p2 : string) :
  occurs "{" p1 = false -> occurs "}" p1 = false -> occurs "?" p1 = false ->
  occurs "{" p2 = false -> occurs "}" p2 = false -> occurs "?" p2 = false ->
  toOpenApiPath p1 = toOpenApiPath p2 -> p1 = p2.
Proof.
  intros Ho1 Hc1 Hq1 Ho2 Hc2 Hq2.
  destruct (toOpenApiPath_segments p1) as (segs1 & _ & Hs1 & ->).
  destruct (toOpenApiPath_segments p2) as (segs2 & _ & Hs2 & ->).
  rewrite prefix_before_absent in Hs1, Hs2 by assumption.
  intros [= Heq]. apply (f_equal unbrace) in Heq.
  rewrite !unbrace_target_of in Heq by (rewrite ?Hs1, ?Hs2; assumption).
  congruence.
Qed.

Lemma toOpenApiPath_injective_witness : "/users/:id" = "/users/:id".
Proof. apply (toOpenApiPath_injective "/users/:id" "/users/:id"); reflexivity. Defined.

(** Without the restriction on braces the conversion is not injective. *)
Example toOpenApiPath_brace_collision :
  toOpenApiPath "/users/:id" = toOpenApiPath "/users/{id}".
Proof. reflexivity. Qed.

(** * [ConvertPathType]: from the OpenAPI path back to the pattern *)

Lemma ConvertPathType_match (T Start Name Rest : string) :
  infer_path_param T = Some (Start, Name, Rest) ->
  ConvertPathType T = Start +:+ "/:" +:+ Name +:+ ConvertPathType Rest.
Proof.
  intros H. rewrite ConvertPathType_equation_1.
  destruct (inspect (infer_path_param T)) as [[[[Start' Name'] Rest']|] Hm];
    pose proof (eq_trans (eq_sym Hm) H) as E; [|discriminate E].
  injection E as -> -> ->. now simp ConvertPathType.
Qed.

Lemma ConvertPathType_none (T : string) :
  infer_path_param T = None -> ConvertPathType T = T.
Proof.
  intros H. rewrite ConvertPathType_equation_1.
  destruct (inspect (infer_path_param T)) as [[[[Start' Name'] Rest']|] Hm];
    pose proof (eq_trans (eq_sym Hm) H) as E; [discriminate E|].
  now simp ConvertPathType.
Qed.

Lemma infer_path_param_cons (c : ascii) (T : string) :
  strip_prefix "/{" (String c T) = None ->
  infer_path_param (String c T)
  = match infer_path_param T with
    | Some (Start, Name, Rest) => Some (String c Start, Name, Rest)
    | None => None
    end.
Proof.
  intros Hp. unfold infer_path_param.
  change (infer_around_text "/{" (String c T))
    with (match strip_prefix "/{" (String c T) with
          | Some B => Some (EmptyString, B)
          | None =>
              match infer_around_text "/{" T with
              | Some (A, B) => Some (String c A, B)
              | None => None
              end
          end).
  rewrite Hp.
  destruct (infer_around_text "/{" T) as [[A B]|]; [|reflexivity].
  now destruct (infer_around "}" B) as [[Name Rest]|].
Qed.

Lemma ConvertPathType_cons (c : ascii) (T : string) :
  strip_prefix "/{" (String c T) = None ->
  ConvertPathType (String c T) = String c (ConvertPathType T).
Proof.
  intros Hp. pose proof (infer_path_param_cons c T Hp) as Hcons.
  destruct (infer_path_param T) as [[[Start Name] Rest]|] eqn:HT.
  - rewrite (ConvertPathType_match _ _ _ _ Hcons).
    now rewrite (ConvertPathType_match _ _ _ _ HT).
  - rewrite (ConvertPathType_none _ Hcons).
    now rewrite (ConvertPathType_none _ HT).
Qed.

Lemma infer_around_first (sep : ascii) (A B : string) :
  occurs sep A = false -> infer_around sep (A +:+ String sep B) = Some (A, B).
Proof.
  induction A as [|c A IH]; simpl.
  - now rewrite Ascii.eqb_refl.
  - intros [Hc HA]%orb_false_elim. now rewrite Hc, IH.
Qed.

Lemma ConvertPathType_param (name Rest : string) :
  occurs "}" name = false ->
  ConvertPathType (String "/" (String "{" (name +:+ String "}" Rest)))
  = String "/" (String ":" (name +:+ ConvertPathType Rest)).
Proof.
  intros Hname.
  rewrite (ConvertPathType_match _ "" name Rest); [reflexivity|].
  unfold infer_path_param. simpl. now rewrite infer_around_first.
Qed.

Lemma all_word_occurs (c : ascii) (name : string) :
  is_word c = false -> all_word name = true -> occurs c name = false.
Proof.
  intros Hc. induction name as [|d name IH]; simpl; [reflexivity|].
  intros [Hd Hname]%andb_prop. rewrite IH by assumption.
  destruct (Ascii.eqb_spec d c) as [->|]; [congruence | reflexivity].
Qed.

Lemma strip_slash_brace_other (c : ascii) (T : string) :
  c <> "/"%char -> strip_prefix "/{" (String c T) = None.
Proof.
  intros Hc. cbn [strip_prefix].
  destruct (Ascii.eqb_spec "/" c); congruence.
Qed.

Lemma strip_slash_brace_lit (c : ascii) (T : string) :
  c <> "{"%char -> strip_prefix "/{" (String "/" (String c T)) = None.
Proof.
  intros Hc. cbn [strip_prefix]. rewrite Ascii.eqb_refl.
  destruct (Ascii.eqb_spec "{" c); congruence.
Qed.

Lemma ConvertPathType_target_of (segs : list segment) :
  maximal_tokens segs = true ->
  (slash_params false segs = true ->
   ConvertPathType (target_of segs) = source_of segs)
  /\ (slash_params true segs = true ->
      ConvertPathType (String "/" (target_of segs)) = String "/" (source_of segs)).
Proof.
  induction segs as [|[c|name] rest IH]; intros Hmax.
  - split; reflexivity.
  - simpl in Hmax. apply andb_prop in Hmax as [_ Hrest].
    destruct (IH Hrest) as [IHplain IHslash].
    assert (Hplain : slash_params false (Lit c :: rest) = true ->
                     ConvertPathType (target_of (Lit c :: rest))
                     = source_of (Lit c :: rest)).
    { simpl. intros [Hc Hsl]%andb_prop.
      destruct (Ascii.eqb_spec c "/") as [->|Hne]; [now apply IHslash|].
      rewrite ConvertPathType_cons, IHplain;
        auto using strip_slash_brace_other. }
    split; [exact Hplain|].
    intros Hsl. simpl in Hsl |- *.
    rewrite ConvertPathType_cons.
    + f_equal. now apply Hplain.
    + apply andb_prop in Hsl as [Hc _]. apply negb_true_iff in Hc.
      apply strip_slash_brace_lit. now apply Ascii.eqb_neq.
  - simpl in Hmax.
    apply andb_prop in Hmax as [[[Hne Hall]%andb_prop Hstop]%andb_prop Hrest].
    destruct (IH Hrest) as [IHplain _].
    split; [discriminate|].
    simpl. intros Hsl. rewrite append_assoc. simpl.
    rewrite ConvertPathType_param by now apply all_word_occurs.
    now rewrite IHplain.
Qed.

(** X6: Converting a pattern and converting the result back with
    [ConvertPathType] gives the pattern without its query, when every
    parameter of the pattern comes right after a [/] and the pattern holds no
    [{] outside the query. *)
Theorem ConvertPathType_toOpenApiPath (p : string) (segs : list segment) :
  maximal_tokens segs = true -> slash_params false segs = true ->
  source_of segs = prefix_before "?" p ->
  ConvertPathType <$> toOpenApiPath p = Some (prefix_before "?" p).
Proof.
  intros Hmax Hsl Hsrc.
  rewrite toOpenApiPath_unfold, <- Hsrc, replace_params_source_of by assumption.
  simpl. f_equal. now apply ConvertPathType_target_of.
Qed.

Lemma ConvertPathType_toOpenApiPath_witness :
  ConvertPathType <$> toOpenApiPath "/u/:userId/p/:postId?draft"
  = Some (prefix_before "?" "/u/:userId/p/:postId?draft").
Proof.
  apply (ConvertPathType_toOpenApiPath _
           [Lit "/"; Lit "u"; Lit "/"; Param "userId"; Lit "/"; Lit "p";
            Lit "/"; Param "postId"]); reflexivity.
Defined.

Lemma infer_around_text_absent (delim P : string) :
  occurs_text delim P = false -> infer_around_text delim P = None.
Proof.
  induction P as [|c rest IH]; simpl.
  - now destruct (strip_prefix delim "").
  - destruct (strip_prefix delim (String c rest)); [discriminate|].
    intros H. now rewrite IH.
Qed.

(** [ConvertPathType] rewrites only braces that come right after a slash: a
    path in which ["/{"] does not occur is returned as it is, whatever other
    braces it holds. *)
Theorem ConvertPathType_needs_slash (T : string) :
  occurs_text "/{" T = false -> ConvertPathType T = T.
Proof.
  intros Hno. apply ConvertPathType_none. unfold infer_path_param.
  now rewrite infer_around_text_absent.
Qed.

Lemma ConvertPathType_needs_slash_witness :
  ConvertPathType "/files/x.{ext}" = "/files/x.{ext}".
Proof. apply (ConvertPathType_needs_slash "/files/x.{ext}"). reflexivity. Defined.

Lemma ConvertPathType_app_no_slash (s T : string) :
  occurs "/" s = false -> ConvertPathType (s +:+ T) = s +:+ ConvertPathType T.
Proof.
  induction s as [|c s IH]; simpl; [reflexivity|].
  intros [Hc Hs]%orb_false_elim. apply Ascii.eqb_neq in Hc.
  rewrite ConvertPathType_cons by now apply strip_slash_brace_other.
  now rewrite IH.
Qed.

Lemma ConvertPathType_back_of (segs : list segment) :
  maximal_tokens segs = true -> no_open_lit segs = true ->
  ConvertPathType (target_of segs) = back_of false segs
  /\ ConvertPathType (String "/" (target_of segs)) = String "/" (back_of true segs).
Proof.
  induction segs as [|[c|name] rest IH]; intros Hmax Hlit.
  - split; reflexivity.
  - simpl in Hmax, Hlit. apply andb_prop in Hmax as [_ Hrest].
    apply andb_prop in Hlit as [Hc Hlit]. apply negb_true_iff in Hc.
    destruct (IH Hrest Hlit) as [IHplain IHslash].
    assert (Hplain : ConvertPathType (target_of (Lit c :: rest))
                     = back_of false (Lit c :: rest)).
    { simpl. destruct (Ascii.eqb_spec c "/") as [->|Hne]; [exact IHslash|].
      now rewrite ConvertPathType_cons, IHplain by now apply strip_slash_brace_other. }
    split; [exact Hplain|].
    rewrite ConvertPathType_cons.
    + f_equal. exact Hplain.
    + apply strip_slash_brace_lit. now apply Ascii.eqb_neq.
  - simpl in Hmax, Hlit.
    apply andb_prop in Hmax as [[[Hne Hall]%andb_prop Hstop]%andb_prop Hrest].
    destruct (IH Hrest Hlit) as [IHplain _].
    split; simpl; rewrite append_assoc; simpl.
    + rewrite ConvertPathType_cons by now apply strip_slash_brace_other.
      rewrite ConvertPathType_app_no_slash by now apply all_word_occurs.
      rewrite ConvertPathType_cons by now apply strip_slash_brace_other.
      rewrite IHplain. now rewrite append_assoc.
    + rewrite ConvertPathType_param by now apply all_word_occurs.
      now rewrite IHplain.
Qed.

(** X7: What [ConvertPathType] makes of a converted pattern, in general: the
    parameters that come right after a [/] are back in the router's syntax,
    the other ones stay in braces, and every other character is kept (for
    patterns that hold no [{] before the query). *)
Theorem ConvertPathType_after_slash_only (p : string) (segs : list segment) :
  maximal_tokens segs = true -> no_open_lit segs = true ->
  source_of segs = prefix_before "?" p ->
  ConvertPathType <$> toOpenApiPath p = Some (back_of false segs).
Proof.
  intros Hmax Hlit Hsrc.
  rewrite toOpenApiPath_unfold, <- Hsrc, replace_params_source_of by assumption.
  simpl. f_equal. now apply ConvertPathType_back_of.
Qed.

Lemma ConvertPathType_after_slash_only_witness :
  ConvertPathType <$> toOpenApiPath "/f/:name.:ext?raw" = Some "/f/:name.{ext}".
Proof.
  apply (ConvertPathType_after_slash_only "/f/:name.:ext?raw"
           [Lit "/"; Lit "f"; Lit "/"; Param "name"; Lit "."; Param "ext"]);
    reflexivity.
Defined.

Lemma no_open_lit_source_of (segs : list segment) :
  occurs "{" (source_of segs) = false -> no_open_lit segs = true.
Proof.
  induction segs as [|[c|name] rest IH]; simpl; [reflexivity| |].
  - intros [Hc Hrest]%orb_false_elim. now rewrite Hc, IH.
  - rewrite occurs_append. intros [_ Hrest]%orb_false_elim. now apply IH.
Qed.

Lemma back_of_source_of (segs : list segment) (after_slash : bool) :
  no_open_lit segs = true ->
  back_of after_slash segs = source_of segs ->
  slash_params after_slash segs = true.
Proof.
  revert after_slash.
  induction segs as [|[c|name] rest IH]; intros after_slash Hlit; simpl in *;
    [reflexivity| |].
  - apply andb_prop in Hlit as [Hc Hlit]. intros [= Heq].
    now rewrite Hc, IH.
  - destruct after_slash; [|discriminate].
    intros [= Heq]. apply String.app_inj in Heq. now apply IH.
Qed.

(** X8: The round trip holds only then: if a pattern without [{] before its query
    comes back unchanged (query apart) from [toOpenApiPath] followed by
    [ConvertPathType], every one of its parameters comes right after a
    [/]. *)
Theorem ConvertPathType_toOpenApiPath_only_if (p : string) (segs : list segment) :
  maximal_tokens segs = true ->
  source_of segs = prefix_before "?" p ->
  occurs "{" (prefix_before "?" p) = false ->
  ConvertPathType <$> toOpenApiPath p = Some (prefix_before "?" p) ->
  slash_params false segs = true.
Proof.
  intros Hmax Hsrc Hopen.
  assert (Hlit : no_open_lit segs = true)
    by (apply no_open_lit_source_of; now rewrite Hsrc).
  rewrite toOpenApiPath_unfold, <- Hsrc, replace_params_source_of by assumption.
  simpl. rewrite (proj1 (ConvertPathType_back_of segs Hmax Hlit)).
  intros [= Heq]. now apply back_of_source_of.
Qed.

Lemma ConvertPathType_toOpenApiPath_only_if_witness :
  slash_params false [Lit "/"; Lit "u"; Lit "/"; Param "id"] = true.
Proof.
  apply (ConvertPathType_toOpenApiPath_only_if "/u/:id?x"); reflexivity.
Defined.

(** * Further properties of the type-level converter *)

Lemma ExtractParamName_acc (S Acc : string) :
  ExtractParamName S Acc = Acc +:+ ExtractParamName S "".
Proof.
  revert Acc. induction S as [|C Rest IH]; intros Acc; simpl.
  - now rewrite append_nil_r.
  - destruct (extends_ParamDelimiter (String C "")).
    + now rewrite append_nil_r.
    + rewrite (IH (Acc +:+ String C "")), (IH (String C "")).
      now rewrite append_assoc.
Qed.

Lemma ExtractParamName_SkipParamName_append (S : string) :
  ExtractParamName S "" +:+ SkipParamName S = S.
Proof.
  induction S as [|C Rest IH]; simpl; [reflexivity|].
  destruct (extends_ParamDelimiter (String C "")); [reflexivity|].
  rewrite (ExtractParamName_acc Rest (String C "")). simpl. now rewrite IH.
Qed.

Lemma ExtractParamName_no_delimiter (S : string) (d : ascii) :
  is_delimiter d = true -> occurs d (ExtractParamName S "") = false.
Proof.
  intros Hd. induction S as [|C Rest IH]; simpl; [reflexivity|].
  destruct (extends_ParamDelimiter (String C "")) eqn:HC; [reflexivity|].
  rewrite (ExtractParamName_acc Rest (String C "")). simpl. rewrite IH.
  destruct (Ascii.eqb_spec C d) as [->|]; [|reflexivity].
  unfold is_delimiter in Hd. congruence.
Qed.

Lemma SkipParamName_stops (S : string) : stops_name (SkipParamName S) = true.
Proof.
  induction S as [|C Rest IH]; simpl; [reflexivity|].
  destruct (extends_ParamDelimiter (String C "")) eqn:HC; [|assumption].
  exact HC.
Qed.

(** X9: [ExtractParamName] and [SkipParamName] cut the text after a colon in two
    without losing a character: the name is the part before the first
    delimiter and holds none, the rest is empty or starts with a delimiter,
    and name and rest together are the text. *)
Theorem ExtractParamName_SkipParamName (S : string) :
  ExtractParamName S "" +:+ SkipParamName S = S
  /\ (forall d : ascii,
         is_delimiter d = true -> occurs d (ExtractParamName S "") = false)
  /\ stops_name (SkipParamName S) = true.
Proof.
  split; [apply ExtractParamName_SkipParamName_append|].
  split; [intros d; apply ExtractParamName_no_delimiter | apply SkipParamName_stops].
Qed.

Lemma ExtractParamName_SkipParamName_witness :
  occurs "." (ExtractParamName "name.:ext/rest" "") = false.
Proof.
  apply (proj1 (proj2 (ExtractParamName_SkipParamName "name.:ext/rest"))).
  reflexivity.
Defined.

Lemma infer_around_sound (sep : ascii) (P A B : string) :
  infer_around sep P = Some (A, B) ->
  P = A +:+ String sep B /\ occurs sep A = false.
Proof.
  revert A. induction P as [|c rest IH]; simpl; intros A; [discriminate|].
  destruct (Ascii.eqb_spec c sep) as [->|Hc].
  - intros [= <- <-]. auto.
  - destruct (infer_around sep rest) as [[A' B']|]; [|discriminate].
    intros [= <- <-]. destruct (IH A' eq_refl) as [-> HA]. simpl.
    apply Ascii.eqb_neq in Hc. now rewrite Hc.
Qed.

Lemma infer_around_none_inv (sep : ascii) (P : string) :
  infer_around sep P = None -> occurs sep P = false.
Proof.
  induction P as [|c rest IH]; simpl; [reflexivity|].
  destruct (Ascii.eqb c sep); [discriminate|].
  destruct (infer_around sep rest) as [[A B]|]; [discriminate|]. auto.
Qed.

Lemma occurs_colon_ToOpenApiPath (P : string) :
  occurs ":" (ToOpenApiPath P) = false.
Proof.
  remember (String.length P) as n eqn:Hn. revert P Hn.
  induction n as [n IH] using lt_wf_ind. intros P ->.
  destruct (infer_around ":" P) as [[Head After]|] eqn:Hc.
  - rewrite (ToOpenApiPath_colon _ _ _ Hc).
    pose proof (infer_around_length _ _ _ _ Hc) as Hlen.
    pose proof (SkipParamName_length After) as Hskip.
    apply infer_around_sound in Hc as [_ HHead].
    rewrite !occurs_append, HHead. simpl.
    rewrite (ExtractParamName_no_delimiter After ":" eq_refl). simpl.
    apply (IH (String.length (SkipParamName After))); [lia | reflexivity].
  - rewrite (ToOpenApiPath_no_colon _ Hc).
    apply infer_around_none_inv in Hc.
    destruct (infer_around "?" P) as [[Path Query]|] eqn:Hq; [|assumption].
    apply infer_around_sound in Hq as [-> _].
    rewrite occurs_append in Hc. now apply orb_false_elim in Hc as [HPath _].
Qed.

(** X10: The type computed by [ToOpenApiPath] never holds a colon: every colon of
    the pattern is turned into a pair of braces, whatever follows it. *)
Theorem ToOpenApiPath_no_colon_left (P : string) :
  occurs ":" (ToOpenApiPath P) = false.
Proof. apply occurs_colon_ToOpenApiPath. Qed.

(** X13: The runtime function keeps a colon that starts no parameter and the type
    never holds one: on every pattern with such a colon before its query, the
    value returned by [toOpenApiPath] is not the literal that its type
    [ToOpenApiPath] says. *)
Theorem converters_differ_on_lone_colon (pre post : string) :
  occurs "?" pre = false -> starts_word post = false ->
  toOpenApiPath (pre +:+ String ":" post)
  <> Some (ToOpenApiPath (pre +:+ String ":" post)).
Proof.
  intros Hpre Hpost. rewrite toOpenApiPath_unfold.
  rewrite (prefix_before_append _ pre _ Hpre). simpl.
  rewrite replace_params_append by reflexivity.
  rewrite replace_params_lit
    by (simpl; now apply starts_word_prefix_before).
  intros [= Heq]. apply (f_equal (occurs ":")) in Heq.
  rewrite occurs_colon_ToOpenApiPath, occurs_append in Heq. simpl in Heq.
  now rewrite orb_true_r in Heq.
Qed.

Lemma converters_differ_on_lone_colon_witness :
  toOpenApiPath "https://example.com/users/:id"
  <> Some (ToOpenApiPath "https://example.com/users/:id").
Proof.
  apply (converters_differ_on_lone_colon "https" "//example.com/users/:id");
    reflexivity.
Defined.

Lemma occurs_suffix_from (c sep : ascii) (s : string) :
  occurs c s = false -> occurs c (suffix_from sep s) = false.
Proof.
  induction s as [|d rest IH]; [reflexivity|].
  intros Hs. cbn [suffix_from].
  destruct (Ascii.eqb d sep); [assumption|].
  simpl in Hs. apply orb_false_elim in Hs as [_ Hrest]. now apply IH.
Qed.

Lemma suffix_from_append (sep : ascii) (s1 s2 : string) :
  occurs sep s1 = false -> suffix_from sep (s1 +:+ s2) = suffix_from sep s2.
Proof.
  induction s1 as [|c s1 IH]; [reflexivity|].
  simpl. intros [Hc Hs1]%orb_false_elim. rewrite Hc. now apply IH.
Qed.

Lemma suffix_from_present (sep : ascii) (s1 s2 : string) :
  occurs sep s1 = true ->
  suffix_from sep (s1 +:+ s2) = suffix_from sep s1 +:+ s2.
Proof.
  induction s1 as [|c s1 IH]; [discriminate|].
  simpl. destruct (Ascii.eqb c sep); [reflexivity|]. simpl. apply IH.
Qed.

Lemma occurs_query_ToOpenApiPath (P : string) :
  occurs "?" (ToOpenApiPath P) = occurs ":" (suffix_from "?" P).
Proof.
  remember (String.length P) as n eqn:Hn. revert P Hn.
  induction n as [n IH] using lt_wf_ind. intros P ->.
  destruct (infer_around ":" P) as [[Head After]|] eqn:Hc.
  - rewrite (ToOpenApiPath_colon _ _ _ Hc).
    pose proof (infer_around_length _ _ _ _ Hc) as Hlen.
    pose proof (SkipParamName_length After) as Hskip.
    apply infer_around_sound in Hc as [-> HHead].
    rewrite !occurs_append. simpl.
    rewrite (ExtractParamName_no_delimiter After "?" eq_refl). simpl.
    rewrite (IH (String.length (SkipParamName After))) by (lia || reflexivity).
    destruct (occurs "?" Head) eqn:Hq; simpl.
    + rewrite (suffix_from_present _ _ _ Hq), occurs_append. simpl.
      now rewrite orb_true_r.
    + rewrite (suffix_from_append _ _ _ Hq). simpl.
      rewrite <- (ExtractParamName_SkipParamName_append After) at 2.
      now rewrite suffix_from_append
        by apply (ExtractParamName_no_delimiter After "?" eq_refl).
  - rewrite (ToOpenApiPath_no_colon _ Hc).
    apply infer_around_none_inv in Hc.
    rewrite (occurs_suffix_from _ _ _ Hc).
    destruct (infer_around "?" P) as [[Path Query]|] eqn:Hq.
    + now apply infer_around_sound in Hq as [_ HPath].
    + now apply infer_around_none_inv.
Qed.

(** X11: The type looks for a colon before it looks for the [?]: it keeps the [?]
    exactly when a colon comes somewhere after the first [?], and drops the
    query otherwise. *)
Theorem ToOpenApiPath_keeps_query (P : string) :
  occurs "?" (ToOpenApiPath P) = occurs ":" (suffix_from "?" P).
Proof. apply occurs_query_ToOpenApiPath. Qed.

(** X14: On every pattern with a colon somewhere after the first [?] the value
    returned by [toOpenApiPath], which holds no [?], is not the literal that
    its type [ToOpenApiPath] says, which holds one. *)
Theorem converters_differ_on_colon_in_query (P : string) :
  occurs ":" (suffix_from "?" P) = true ->
  toOpenApiPath P <> Some (ToOpenApiPath P).
Proof.
  intros Hcolon. rewrite toOpenApiPath_unfold.
  intros [= Heq]. apply (f_equal (occurs "?")) in Heq.
  rewrite occurs_query_replace_params, occurs_prefix_before in Heq.
  rewrite occurs_query_ToOpenApiPath, Hcolon in Heq. discriminate Heq.
Qed.

Lemma converters_differ_on_colon_in_query_witness :
  toOpenApiPath "/users/:id?at=12:30" <> Some (ToOpenApiPath "/users/:id?at=12:30").
Proof.
  apply (converters_differ_on_colon_in_query "/users/:id?at=12:30"). reflexivity.
Defined.

Lemma ExtractParamName_name_then (name rest : string) (d : ascii) :
  all_word name = true -> is_delimiter d = false ->
  ExtractParamName (name +:+ String d rest) ""
  = name +:+ String d (ExtractParamName rest "").
Proof.
  intros Hall Hd.
  induction name as [|c name IH]; simpl in *.
  - unfold is_delimiter in Hd. rewrite Hd.
    now rewrite (ExtractParamName_acc rest (String d "")).
  - apply andb_prop in Hall as [Hc Hall].
    pose proof (is_word_not_delimiter c Hc) as Hcd. unfold is_delimiter in Hcd.
    rewrite Hcd, (ExtractParamName_acc _ (String c "")), IH by assumption.
    reflexivity.
Qed.

(** X15: The type ends a name at a delimiter only, the runtime function at the
    first character outside [[A-Za-z0-9_]]: where the first parameter of a
    pattern is followed by a character that is neither (and is not [}]), the
    type takes that character into the braces and differs from the value. *)
Theorem converters_differ_on_undelimited_name (pre name rest : string) (d : ascii) :
  occurs ":" pre = false -> occurs "?" pre = false ->
  nonempty name = true -> all_word name = true ->
  is_word d = false -> is_delimiter d = false -> d <> "}"%char ->
  toOpenApiPath (pre +:+ String ":" (name +:+ String d rest))
  <> Some (ToOpenApiPath (pre +:+ String ":" (name +:+ String d rest))).
Proof.
  intros Hcolon Hquery Hne Hall Hword Hdelim Hbrace.
  rewrite toOpenApiPath_unfold.
  rewrite (prefix_before_append _ pre _ Hquery).
  rewrite replace_params_app_no_colon by assumption.
  cbn [prefix_before]. change (Ascii.eqb ":" "?") with false. cbv iota.
  assert (Hname : occurs "?" name = false) by now apply all_word_occurs.
  rewrite (prefix_before_append _ name _ Hname).
  rewrite replace_params_param; [|assumption..|].
  - rewrite (ToOpenApiPath_colon _ pre (name +:+ String d rest))
      by now apply infer_around_first.
    rewrite ExtractParamName_name_then by assumption.
    intros [= Heq]. apply String.app_inj in Heq.
    unfold braces in Heq. simpl in Heq. injection Heq as Heq.
    rewrite !append_assoc in Heq. apply String.app_inj in Heq.
    simpl in Heq. injection Heq as Heq _. congruence.
  - cbn [prefix_before].
    destruct (Ascii.eqb d "?"); [reflexivity | exact Hword].
Qed.

Lemma converters_differ_on_undelimited_name_witness :
  toOpenApiPath "/users/:user$id" <> Some (ToOpenApiPath "/users/:user$id").
Proof.
  apply (converters_differ_on_undelimited_name "/users/" "user" "id" "$");
    try reflexivity.
  discriminate.
Defined.

(** X16: The path type that a handler is typed with, [ConvertPathType] of
    [ToOpenApiPath] of the pattern, is the pattern without its query, when
    every colon of the pattern starts a parameter that comes right after a
    [/] and ends at a delimiter, and the pattern holds no [{] before the
    query and no colon in it. *)
Theorem ConvertPathType_ToOpenApiPath (p : string) (segs : list segment) :
  maximal_tokens segs = true -> delimited_tokens segs = true ->
  slash_params false segs = true ->
  source_of segs = prefix_before "?" p ->
  occurs ":" (suffix_from "?" p) = false ->
  ConvertPathType (ToOpenApiPath p) = prefix_before "?" p.
Proof.
  intros Hmax Hdel Hsl Hsrc Hcolon.
  rewrite <- (prefix_suffix "?" p) at 1. rewrite <- Hsrc.
  rewrite ToOpenApiPath_source_of; auto using suffix_from_shape.
  - now apply ConvertPathType_target_of.
  - rewrite Hsrc. apply occurs_prefix_before.
Qed.

Lemma ConvertPathType_ToOpenApiPath_witness :
  ConvertPathType (ToOpenApiPath "/u/:userId/p/:postId?draft")
  = prefix_before "?" "/u/:userId/p/:postId?draft".
Proof.
  apply (ConvertPathType_ToOpenApiPath _
           [Lit "/"; Lit "u"; Lit "/"; Param "userId"; Lit "/"; Lit "p";
            Lit "/"; Param "postId"]); reflexivity.
Defined.

(** * Further properties of [createSpec] *)

(** X17: Every property of the config other than [request] reaches [createRoute]
    with the value the config gives it; this includes [method] and [path],
    which then replace the values computed from the route. *)
Theorem createSpec_config_wins (route : Route) (config : gmap string value)
    (key : string) (v : value) :
  key ≠ "request" -> config !! key = Some v ->
  exists arg : gmap string value,
    (forall (Spec : Type) (createRoute : gmap string value → Spec),
        createSpec createRoute route config = Some (createRoute arg))
    /\ arg !! key = Some v.
Proof.
  intros Hkey Hv. eexists. split; [intros; apply createSpec_unfold|].
  apply lookup_union_Some_l. now rewrite transformedConfig_other.
Qed.

Lemma createSpec_config_wins_witness :
  exists arg : gmap string value,
    createSpec (fun forwarded => forwarded)
      {| method := "GET"; pattern_source := "/users/:id" |}
      {["path" := VString "/elsewhere"]} = Some arg
    /\ arg !! "path" = Some (VString "/elsewhere").
Proof.
  destruct (createSpec_config_wins
              {| method := "GET"; pattern_source := "/users/:id" |}
              {["path" := VString "/elsewhere"]} "path" (VString "/elsewhere"))
    as (arg & Hlink & Hpath); [discriminate | vm_compute; reflexivity |].
  exists arg. split; [apply Hlink | exact Hpath].
Defined.

(** X18: The object handed to [createRoute] has the properties of the config and
    [method], [path] and [request], and no other: no key of the config is
    dropped, and a [request] key is there even when the config has none. *)
Theorem createSpec_keys (route : Route) (config : gmap string value) :
  exists arg : gmap string value,
    (forall (Spec : Type) (createRoute : gmap string value → Spec),
        createSpec createRoute route config = Some (createRoute arg))
    /\ dom arg = dom config ∪ {["method"; "path"; "request"]}.
Proof.
  eexists. split; [intros; apply createSpec_unfold|].
  unfold transformedConfig.
  rewrite dom_union_L, !dom_insert_L, dom_singleton_L.
  apply set_eq. intros key.
  rewrite !elem_of_union, !elem_of_singleton. tauto.
Qed.

(** * Further properties of [toOpenApiMethod] *)

Lemma lower_char_idempotent (c : ascii) : lower_char (lower_char c) = lower_char c.
Proof. destruct c as [[] [] [] [] [] [] [] []]; reflexivity. Qed.

Lemma toLowerCase_idempotent (s : string) : toLowerCase (toLowerCase s) = toLowerCase s.
Proof.
  induction s as [|c s IH]; simpl; [reflexivity|].
  now rewrite lower_char_idempotent, IH.
Qed.

Lemma lower_char_not_upper (c : ascii) : in_range "A" "Z" (lower_char c) = false.
Proof. destruct c as [[] [] [] [] [] [] [] []]; reflexivity. Qed.

(** X19: The method name returned is in lower case whatever string comes in: it
    holds no letter from [A] to [Z], lowercasing it again changes nothing,
    and converting it again gives it back. *)
Theorem toOpenApiMethod_is_lowercase (method : string) :
  has_upper (toOpenApiMethod method) = false
  /\ toLowerCase (toOpenApiMethod method) = toOpenApiMethod method
  /\ toOpenApiMethod (toOpenApiMethod method) = toOpenApiMethod method.
Proof.
  assert (Hup : forall s, has_upper (toLowerCase s) = false).
  { induction s as [|c s IH]; simpl; [reflexivity|].
    now rewrite lower_char_not_upper, IH. }
  assert (Hany : forall s, String.eqb (toLowerCase s) "ANY" = false).
  { intros s. apply String.eqb_neq. intros Heq.
    pose proof (Hup s) as H. rewrite Heq in H. discriminate H. }
  unfold toOpenApiMethod at 1 2 3 4.
  set (openApi := if String.eqb method "ANY" then "GET" else method).
  repeat split.
  - apply Hup.
  - apply toLowerCase_idempotent.
  - unfold toOpenApiMethod. rewrite Hany. apply toLowerCase_idempotent.
Qed.

(** * [IsJson] *)

Lemma infer_around_text_json (X End : string) :
  occurs "j" X = false ->
  infer_around_text "json" (X +:+ "json" +:+ End) = Some (X, End).
Proof.
  induction X as [|c X IH]; intros HX.
  - reflexivity.
  - simpl in HX. apply orb_false_elim in HX as [Hc HX].
    change (infer_around_text "json" (String c (X +:+ "json" +:+ End)) = Some (String c X, End)).
    cbn [infer_around_text strip_prefix].
    rewrite Ascii.eqb_sym, Hc. now rewrite (IH HX).
Qed.

Lemma strip_prefix_sound (t s B : string) :
  strip_prefix t s = Some B -> s = t +:+ B.
Proof.
  revert s. induction t as [|a t IH]; simpl; intros s.
  - now intros [= ->].
  - destruct s as [|b s]; [discriminate|].
    destruct (Ascii.eqb_spec a b) as [->|]; [|discriminate].
    intros H. now rewrite (IH _ H).
Qed.

Lemma ends_with_append (c : ascii) (t m : string) :
  ends_with c m = true -> ends_with c (t +:+ m) = true.
Proof.
  intros Hm. induction t as [|d t IH]; simpl; [assumption|].
  destruct (t +:+ m); [discriminate IH | exact IH].
Qed.

(** The alternative [`vnd.${string}+`] of [IsJson] never decides: a prefix
    that matches it ends with [+] and matches [`${string}+`] already. *)
Lemma json_subtype_prefix_without_vnd (Start : string) :
  json_subtype_prefix Start = String.eqb Start "" || ends_with "+" Start.
Proof.
  unfold json_subtype_prefix.
  destruct (strip_prefix "vnd." Start) as [middle|] eqn:Hs;
    [|now rewrite orb_false_r].
  destruct (ends_with "+" middle) eqn:He; [|now rewrite orb_false_r].
  apply strip_prefix_sound in Hs. subst Start.
  rewrite (ends_with_append _ "vnd." middle He). now rewrite !orb_true_r.
Qed.

Lemma IsJson_application (subtype : string) :
  IsJson ("application/" +:+ subtype)
  = match infer_around_text "json" subtype with
    | Some (Start, _) => if json_subtype_prefix Start then Some "json" else None
    | None => None
    end.
Proof. reflexivity. Qed.

(** X20: Which content types are JSON: for a content type
    [application/<X>json<End>] whose part [X] holds no letter [j], [IsJson]
    answers ["json"] exactly when [X] is empty or ends with [+].  So
    [application/json] with any parameters and every [+json] type count as
    JSON, and a type such as [application/x-ndjson] does not. *)
Theorem IsJson_subtype (X End : string) :
  occurs "j" X = false ->
  IsJson ("application/" +:+ X +:+ "json" +:+ End)
  = if String.eqb X "" || ends_with "+" X then Some "json" else None.
Proof.
  intros HX. rewrite IsJson_application.
  rewrite (infer_around_text_json X End HX).
  now rewrite json_subtype_prefix_without_vnd.
Qed.

Lemma IsJson_subtype_witness :
  IsJson "application/vnd.api+json; charset=utf-8" = Some "json"
  /\ IsJson "application/x-ndjson" = None.
Proof.
  split.
  - apply (IsJson_subtype "vnd.api+" "; charset=utf-8"). reflexivity.
  - apply (IsJson_subtype "x-nd" ""). reflexivity.
Defined.
